(** * Package sorting: threshold classifier and rule engine

    A shallow embedding of [packageSortingConfig.js], of the rule-based
    [packageSorting.js] (class [RuleEngine], [isBulky], [isHeavy], [sort])
    and of the earlier decision-matrix module with the direct [sort].

    JavaScript values are modelled by small inductive types, the mutable
    field [this.rules] by explicit state passing, and [throw] by a
    completion type. *)

From Stdlib Require Import List String Ascii Bool PeanoNat QArith Lia Lqa.
From Stdlib Require Import Qpower Qround Qabs.
From Stdlib Require Import Sorted Permutation.
Import ListNotations.

Set Warnings "-register-all".

Local Open Scope string_scope.
Local Open Scope list_scope.

(* ================================================================== *)
(** ** JavaScript numbers *)
(* ================================================================== *)

(** A JS number is NaN, an infinity, or a finite value.  A finite value
    is kept as the rational it denotes (the sign of zero, which no
    comparison distinguishes, is not kept).  An arithmetic result is
    rounded to binary64 by [round64] where the code reads more of it than
    its sign; the special values follow IEEE 754. *)
Inductive number : Type :=
| NaN
| PInf
| NInf
| Fin (q : Q).

Definition Qsign (q : Q) : comparison := (q ?= 0)%Q.

(** *** Rounding to binary64 *)

Definition pow2 (z : Z) : Q := (2 ^ z)%Q.

(** For [q > 0], the exponent [k] with [2^k <= q < 2^(k+1)]. *)
Definition ilog2 (q : Q) : Z :=
  let k0 := (Z.log2 (Qnum q) - Z.log2 (Zpos (Qden q)))%Z in
  if Qle_bool (pow2 k0) q then k0 else (k0 - 1)%Z.

(** The integer nearest to [s], the even one of two equally near. *)
Definition round_half_even (s : Q) : Z :=
  let f := Qfloor s in
  match (s - inject_Z f ?= 1 # 2)%Q with
  | Lt => f
  | Gt => (f + 1)%Z
  | Eq => if Z.even f then f else (f + 1)%Z
  end.

(** Round to nearest, ties to even, for [q > 0]: a significand of 53 bits
    over the exponent of [q], no exponent below that of the subnormal
    numbers, and infinity from [2^1024] on. *)
Definition round64_pos (q : Q) : number :=
  let e := Z.max (ilog2 q - 52) (-1074) in
  let m := round_half_even (q / pow2 e) in
  let r := (inject_Z m * pow2 e)%Q in
  if Qle_bool (pow2 1024) r then PInf else Fin r.

Definition num_opp (x : number) : number :=
  match x with
  | NaN => NaN
  | PInf => NInf
  | NInf => PInf
  | Fin q => Fin (- q)
  end.

(** The binary64 number nearest to the rational [q]. *)
Definition round64 (q : Q) : number :=
  match Qsign q with
  | Eq => Fin 0
  | Gt => round64_pos q
  | Lt => num_opp (round64_pos (- q))
  end.

(** [x * y]: the exact product, rounded. *)
Definition num_mul (x y : number) : number :=
  match x, y with
  | NaN, _ | _, NaN => NaN
  | Fin a, Fin b => round64 (a * b)
  | Fin a, PInf | PInf, Fin a =>
      match Qsign a with Eq => NaN | Gt => PInf | Lt => NInf end
  | Fin a, NInf | NInf, Fin a =>
      match Qsign a with Eq => NaN | Gt => NInf | Lt => PInf end
  | PInf, PInf | NInf, NInf => PInf
  | PInf, NInf | NInf, PInf => NInf
  end.

(** [x - y].  The only difference the code takes is the comparator of
    the sort, which is read for its sign alone; the difference of two
    binary64 numbers rounds to a number of the same sign, so the exact
    difference stands for it. *)
Definition num_sub (x y : number) : number :=
  match x, y with
  | NaN, _ | _, NaN => NaN
  | Fin a, Fin b => Fin (a - b)
  | PInf, PInf | NInf, NInf => NaN
  | PInf, _ | _, NInf => PInf
  | NInf, _ | _, PInf => NInf
  end.

(** [x < y]; every comparison with NaN is false. *)
Definition num_ltb (x y : number) : bool :=
  match x, y with
  | NaN, _ | _, NaN => false
  | NInf, NInf | PInf, _ | _, NInf => false
  | NInf, _ | _, PInf => true
  | Fin a, Fin b => match (a ?= b)%Q with Lt => true | _ => false end
  end.

(** [x >= y] *)
Definition num_geb (x y : number) : bool :=
  match x, y with
  | NaN, _ | _, NaN => false
  | PInf, _ | _, NInf => true
  | NInf, _ | _, PInf => false
  | Fin a, Fin b => match (a ?= b)%Q with Lt => false | _ => true end
  end.

(** [x > y] *)
Definition num_gtb (x y : number) : bool := num_ltb y x.

(** [Number.isFinite(x)] for a value that is a number. *)
Definition isFinite (x : number) : bool :=
  match x with Fin _ => true | _ => false end.

(** The mathematical order the comparisons decide: [num_le x y] reads
    "x <= y", unordered as soon as one side is NaN. *)
Definition num_le (x y : number) : Prop :=
  match x, y with
  | NaN, _ | _, NaN => False
  | NInf, _ | _, PInf => True
  | PInf, _ | _, NInf => False
  | Fin a, Fin b => (a <= b)%Q
  end.

Definition num_of_Z (z : Z) : number := Fin (inject_Z z).
Coercion num_of_Z : Z >-> number.

(** A decimal literal of the source denotes the binary64 number nearest
    to it. *)
Definition literal (q : Q) : number := round64 q.

(* ================================================================== *)
(** ** packageSortingConfig.js: constants *)
(* ================================================================== *)

Definition VOLUME_THRESHOLD : number := 1000000%Z.
Definition DIMENSION_THRESHOLD : number := 150%Z.
Definition MASS_THRESHOLD : number := 20%Z.

Definition STANDARD : string := "STANDARD".
Definition SPECIAL : string := "SPECIAL".
Definition REJECTED : string := "REJECTED".

Definition PRIORITY_HIGH : number := 1%Z.
Definition PRIORITY_MEDIUM : number := 2%Z.
Definition PRIORITY_LOW : number := 3%Z.

(* ================================================================== *)
(** ** Threshold classifier *)
(* ================================================================== *)

(** [isBulky]: the dimension test comes first and returns early; the
    volume is the left-associated product [width * height * length]. *)
Definition isBulky (width height length : number) : bool :=
  if num_geb width DIMENSION_THRESHOLD
     || num_geb height DIMENSION_THRESHOLD
     || num_geb length DIMENSION_THRESHOLD
  then true
  else
    let volume := num_mul (num_mul width height) length in
    if num_geb volume VOLUME_THRESHOLD then true else false.

Definition isHeavy (mass : number) : bool :=
  num_geb mass MASS_THRESHOLD.

(** The decision-matrix module: [sort] written as an if/else chain. *)
Module DecisionMatrix.

Definition sort (width height length mass : number) : string :=
  let bulky := isBulky width height length in
  let heavy := isHeavy mass in
  if bulky && heavy then REJECTED
  else if bulky || heavy then SPECIAL
  else STANDARD.

End DecisionMatrix.

(* ================================================================== *)
(** ** JavaScript values *)
(* ================================================================== *)

(** Plain data, as passed to [evaluate] and read by conditions. *)
Inductive jsdata : Type :=
| DUndefined
| DNull
| DBool (b : bool)
| DNum (n : number)
| DStr (s : string)
| DArr (elems : list jsdata)
| DObj (props : list (string * jsdata)).

(** What a condition threw, as far as the catch block of [evaluate] looks
    at it: the catch block reads [error.message] and nothing else.
    [ThrownError m] is an [Error] (or any object) whose [message] is the
    string [m]; [ThrownOther v] is a value that is neither [null] nor
    [undefined] and has no [message] property: a boolean, a number, a
    string such as in [throw "boom"], an array, a plain object.  (An
    object whose [message] is not a string is not represented.) *)
Inductive thrown : Type :=
| ThrownNull
| ThrownUndefined
| ThrownError (message : string)
| ThrownOther (value : jsdata).

(** What calling a condition does.  The engine only ever uses the value a
    condition returns as the test of an [if], so the model keeps its
    ToBoolean image; a throw carries the value thrown. *)
Inductive cond_outcome : Type :=
| Returns (b : bool)
| Throws (error : thrown).

Definition condition_fn : Type := jsdata -> cond_outcome.

(** Values handed to the constructor, [addRule] and [removeRule]: a rule
    literal is an object one of whose properties is a function. *)
Inductive jsval : Type :=
| VUndefined
| VNull
| VBool (b : bool)
| VNum (n : number)
| VStr (s : string)
| VFun (f : condition_fn)
| VArr (elems : list jsval)
| VObj (props : list (string * jsval)).

Inductive jstype : Type :=
| TUndefined | TObject | TBoolean | TNumber | TString | TFunction.

Definition jstype_eqb (a b : jstype) : bool :=
  match a, b with
  | TUndefined, TUndefined | TObject, TObject | TBoolean, TBoolean
  | TNumber, TNumber | TString, TString | TFunction, TFunction => true
  | _, _ => false
  end.

(** ToBoolean of a number: 0 and NaN are falsy. *)
Definition num_truthy (n : number) : bool :=
  match n with
  | NaN => false
  | Fin q => negb (Qeq_bool q 0)
  | _ => true
  end.

Definition str_truthy (s : string) : bool :=
  match s with EmptyString => false | _ => true end.

Definition truthy (v : jsdata) : bool :=
  match v with
  | DUndefined | DNull => false
  | DBool b => b
  | DNum n => num_truthy n
  | DStr s => str_truthy s
  | DArr _ | DObj _ => true
  end.

Definition typeof_data (v : jsdata) : jstype :=
  match v with
  | DUndefined => TUndefined
  | DNull | DArr _ | DObj _ => TObject
  | DBool _ => TBoolean
  | DNum _ => TNumber
  | DStr _ => TString
  end.

Definition truthyV (v : jsval) : bool :=
  match v with
  | VUndefined | VNull => false
  | VBool b => b
  | VNum n => num_truthy n
  | VStr s => str_truthy s
  | VFun _ | VArr _ | VObj _ => true
  end.

Definition typeof (v : jsval) : jstype :=
  match v with
  | VUndefined => TUndefined
  | VNull | VArr _ | VObj _ => TObject
  | VBool _ => TBoolean
  | VNum _ => TNumber
  | VStr _ => TString
  | VFun _ => TFunction
  end.

(** Own properties are an association list; the first binding of a key is
    the property. *)
Fixpoint assoc {V : Type} (k : string) (props : list (string * V)) : option V :=
  match props with
  | [] => None
  | (k', v) :: rest => if String.eqb k k' then Some v else assoc k rest
  end.

(** [o.k] on data: [None] is the TypeError of reading a property of
    [undefined] or [null]; a missing property reads as [undefined]. *)
Definition member (o : jsdata) (k : string) : option jsdata :=
  match o with
  | DUndefined | DNull => None
  | DObj props =>
      match assoc k props with Some v => Some v | None => Some DUndefined end
  | _ => Some DUndefined
  end.

(** [k in o] for a value whose [typeof] is "object". *)
Definition has_property (k : string) (o : jsval) : bool :=
  match o with
  | VObj props => match assoc k props with Some _ => true | None => false end
  | _ => false
  end.

(** [o.k] on a rule literal. *)
Definition get (o : jsval) (k : string) : jsval :=
  match o with
  | VObj props => match assoc k props with Some v => v | None => VUndefined end
  | _ => VUndefined
  end.

(** [a && b] and [a || b] return one of their operands. *)
Definition js_and (a b : jsdata) : jsdata := if truthy a then b else a.
Definition js_or (a b : jsdata) : jsdata := if truthy a then a else b.

(** *** Strings *)

Definition dquote : string := String (ascii_of_nat 34) EmptyString.

(** White space and line terminators among the code units below 256. *)
Definition is_white (c : ascii) : bool :=
  let n := nat_of_ascii c in
  (Nat.eqb n 9 || Nat.eqb n 10 || Nat.eqb n 11 || Nat.eqb n 12
   || Nat.eqb n 13 || Nat.eqb n 32 || Nat.eqb n 160)%bool.

Fixpoint trimStart (s : string) : string :=
  match s with
  | EmptyString => EmptyString
  | String c s' => if is_white c then trimStart s' else s
  end.

Definition reverse (s : string) : string :=
  string_of_list_ascii (List.rev (list_ascii_of_string s)).

Definition trim (s : string) : string :=
  reverse (trimStart (reverse (trimStart s))).

(* ================================================================== *)
(** ** Errors and completions *)
(* ================================================================== *)

(** The code throws plain [Error] objects; the kind records which family
    of throw sites an error comes from (configuration, input, a failing
    condition, no match).  [TypeError] is the error the language itself
    raises when a property of [null] or [undefined] is read. *)
Inductive ErrorKind : Type :=
| ConfigError | InputError | RuleExecutionError | NoMatchError | TypeError.

Record error : Type := Error { kind : ErrorKind; message : string }.

Inductive completion (A : Type) : Type :=
| Normal (a : A)
| Throw (e : error).
Arguments Normal {A} a.
Arguments Throw {A} e.

(* ================================================================== *)
(** ** Rules and [Array.prototype.sort] *)
(* ================================================================== *)

(** A rule object that passed [_validateRule], seen through the four
    properties the engine reads. *)
Record Rule : Type := mkRule {
  name : string;
  condition : condition_fn;
  result : string;
  priority : number
}.

(** Insertion step of a stable sort: [x], which precedes every element of
    the sorted [l] in the array, goes in front of the first [y] that
    [comparefn x y] does not put before it. *)
Fixpoint insert {A : Type} (comparefn : A -> A -> number) (x : A) (l : list A)
  : list A :=
  match l with
  | [] => [x]
  | y :: l' =>
      if num_gtb (comparefn x y) 0%Z then y :: insert comparefn x l'
      else x :: y :: l'
  end.

(** [array.sort(comparefn)]: the sort is stable; a positive [comparefn a b]
    puts [b] first, anything else (negative, zero, NaN) keeps [a] first. *)
Fixpoint Array_sort {A : Type} (comparefn : A -> A -> number) (l : list A)
  : list A :=
  match l with
  | [] => []
  | x :: l' => insert comparefn x (Array_sort comparefn l')
  end.

(** [(a, b) => a.priority - b.priority] *)
Definition by_priority (a b : Rule) : number :=
  num_sub (priority a) (priority b).

(* ================================================================== *)
(** ** class RuleEngine *)
(* ================================================================== *)

(** The instance state is the field [this.rules]. *)
Record RuleEngine : Type := mkEngine { rules : list Rule }.

(** A method reads and updates [this] and completes normally or by a
    throw; the state reached at a throw is kept. *)
Definition method (A : Type) : Type := RuleEngine -> completion A * RuleEngine.

Definition is_object (v : jsval) : bool :=
  truthyV v && jstype_eqb (typeof v) TObject.

Definition requiredProperties : list string :=
  ["name"; "condition"; "result"; "priority"].

(** The [for ... of requiredProperties] loop: the first property that is
    not [in rule]. *)
Fixpoint first_missing (props : list string) (rule : jsval) : option string :=
  match props with
  | [] => None
  | prop :: rest =>
      if negb (has_property prop rule) then Some prop
      else first_missing rest rule
  end.

Definition config_error {A : Type} (msg : string) : completion A :=
  Throw (Error ConfigError msg).

(** [_validateRule(rule)]: returns the rule it was given, or throws. *)
Definition _validateRule (rule : jsval) : completion Rule :=
  if negb (is_object rule) then config_error "Rule must be an object"
  else
    match first_missing requiredProperties rule with
    | Some prop =>
        config_error ("Rule is missing required property: " ++ prop)
    | None =>
        match get rule "name" with
        | VStr rule_name =>
            if String.eqb (trim rule_name) EmptyString
            then config_error "Rule name must be a non-empty string"
            else
              match get rule "condition" with
              | VFun rule_condition =>
                  match get rule "result" with
                  | VStr rule_result =>
                      if String.eqb (trim rule_result) EmptyString
                      then config_error
                             "Rule result must be a non-empty string"
                      else
                        match get rule "priority" with
                        | VNum rule_priority =>
                            if num_ltb rule_priority 0%Z
                               || negb (isFinite rule_priority)
                            then config_error
                                   "Rule priority must be a non-negative number"
                            else Normal (mkRule rule_name rule_condition
                                           rule_result rule_priority)
                        | _ => config_error
                                 "Rule priority must be a non-negative number"
                        end
                  | _ => config_error "Rule result must be a non-empty string"
                  end
              | _ => config_error "Rule condition must be a function"
              end
        | _ => config_error "Rule name must be a non-empty string"
        end
    end.

(** [rules.map((rule) => this._validateRule(rule))]: elements are
    validated from left to right and the first throw ends the map. *)
Fixpoint map_validate (elems : list jsval) : completion (list Rule) :=
  match elems with
  | [] => Normal []
  | rule :: rest =>
      match _validateRule rule with
      | Throw e => Throw e
      | Normal validated =>
          match map_validate rest with
          | Throw e => Throw e
          | Normal validated_rest => Normal (validated :: validated_rest)
          end
      end
  end.

(** [new RuleEngine(rules)]: a throw leaves no instance. *)
Definition new_RuleEngine (rules : jsval) : completion RuleEngine :=
  match rules with
  | VArr elems =>
      if Nat.eqb (List.length elems) 0
      then config_error "Rules array cannot be empty"
      else
        match map_validate elems with
        | Throw e => Throw e
        | Normal validated =>
            Normal (mkEngine (Array_sort by_priority validated))
        end
  | _ => config_error "Rules must be an array"
  end.

Definition rule_error_message (rule : Rule) (msg : string) : string :=
  "Error evaluating rule " ++ dquote ++ name rule ++ dquote ++ ": " ++ msg.

Definition no_match_message : string :=
  "No matching rule found for package data".

(** [error.message] inside the template literal of the catch block: the
    text it contributes, or the message of the TypeError that reading a
    property of [null] or [undefined] raises. *)
Definition message_text (error : thrown) : string + string :=
  match error with
  | ThrownNull => inr "Cannot read properties of null (reading 'message')"
  | ThrownUndefined =>
      inr "Cannot read properties of undefined (reading 'message')"
  | ThrownError message => inl message
  | ThrownOther _ => inl "undefined"
  end.

(** The catch block: [throw new Error(`Error evaluating rule
    "${rule.name}": ${error.message}`)].  When building the message
    fails, that failure leaves [evaluate] instead. *)
Definition rethrow (rule : Rule) (error : thrown) : completion string :=
  match message_text error with
  | inl text => Throw (Error RuleExecutionError (rule_error_message rule text))
  | inr type_error => Throw (Error TypeError type_error)
  end.

(** The [for (const rule of this.rules)] loop of [evaluate].  Next to the
    completion it yields the rules whose condition it called, in call
    order. *)
Fixpoint evaluate_loop (rs : list Rule) (packageData : jsdata)
  : list Rule * completion string :=
  match rs with
  | [] => ([], Throw (Error NoMatchError no_match_message))
  | rule :: rest =>
      match condition rule packageData with
      | Returns true => ([rule], Normal (result rule))
      | Returns false =>
          let (called, c) := evaluate_loop rest packageData in
          (rule :: called, c)
      | Throws error => ([rule], rethrow rule error)
      end
  end.

Definition is_structured (packageData : jsdata) : bool :=
  truthy packageData && jstype_eqb (typeof_data packageData) TObject.

(** [evaluate(packageData)] *)
Definition evaluate (packageData : jsdata) : method string :=
  fun this =>
    if negb (is_structured packageData)
    then (Throw (Error InputError "Package data must be an object"), this)
    else (snd (evaluate_loop (rules this) packageData), this).

(** The conditions a call [evaluate(packageData)] invokes, in order. *)
Definition evaluate_calls (packageData : jsdata) (this : RuleEngine)
  : list Rule :=
  if negb (is_structured packageData) then []
  else fst (evaluate_loop (rules this) packageData).

Definition already_exists_message (rule_name : string) : string :=
  "Rule with name " ++ dquote ++ rule_name ++ dquote ++ " already exists".

(** [addRule(rule)] *)
Definition addRule (rule : jsval) : method unit :=
  fun this =>
    match _validateRule rule with
    | Throw e => (Throw e, this)
    | Normal validatedRule =>
        if existsb
             (fun existingRule =>
                String.eqb (name existingRule) (name validatedRule))
             (rules this)
        then (config_error (already_exists_message (name validatedRule)), this)
        else
          (Normal tt,
           mkEngine (Array_sort by_priority (rules this ++ [validatedRule])))
    end.

Definition not_found_message (rule_name : string) : string :=
  "Rule with name " ++ dquote ++ rule_name ++ dquote ++ " not found".

(** [removeRule(ruleName)]: [this.rules] is replaced by the filtered array
    before the lengths are compared. *)
Definition removeRule (ruleName : jsval) : method unit :=
  fun this =>
    match ruleName with
    | VStr rule_name =>
        if String.eqb (trim rule_name) EmptyString
        then (config_error "Rule name must be a non-empty string", this)
        else
          let initialLength := List.length (rules this) in
          let this' :=
            mkEngine
              (filter (fun rule => negb (String.eqb (name rule) rule_name))
                 (rules this)) in
          if Nat.eqb (List.length (rules this')) initialLength
          then (config_error (not_found_message rule_name), this')
          else (Normal tt, this')
    | _ => (config_error "Rule name must be a non-empty string", this)
    end.

(* ================================================================== *)
(** ** CLASSIFICATION_RULES and the rule-based [sort] *)
(* ================================================================== *)

Definition cannot_read (o : jsdata) (k : string) : string :=
  "Cannot read properties of "
  ++ match o with DNull => "null" | _ => "undefined" end
  ++ " (reading '" ++ k ++ "')".

(** [(packageData) => packageData.bulky && packageData.heavy] *)
Definition rejected_condition : condition_fn :=
  fun packageData =>
    match member packageData "bulky" with
    | None => Throws (ThrownError (cannot_read packageData "bulky"))
    | Some bulky =>
        if truthy bulky then
          match member packageData "heavy" with
          | None => Throws (ThrownError (cannot_read packageData "heavy"))
          | Some heavy => Returns (truthy (js_and bulky heavy))
          end
        else Returns (truthy bulky)
    end.

(** [(packageData) => packageData.bulky || packageData.heavy] *)
Definition special_condition : condition_fn :=
  fun packageData =>
    match member packageData "bulky" with
    | None => Throws (ThrownError (cannot_read packageData "bulky"))
    | Some bulky =>
        if truthy bulky then Returns (truthy bulky)
        else
          match member packageData "heavy" with
          | None => Throws (ThrownError (cannot_read packageData "heavy"))
          | Some heavy => Returns (truthy (js_or bulky heavy))
          end
    end.

(** [(packageData) => true] *)
Definition standard_condition : condition_fn :=
  fun _ => Returns true.

Definition rule_literal (rule_name : string) (rule_condition : condition_fn)
  (rule_result : string) (rule_priority : number) : jsval :=
  VObj [("name", VStr rule_name); ("condition", VFun rule_condition);
        ("result", VStr rule_result); ("priority", VNum rule_priority)].

Definition CLASSIFICATION_RULES : jsval :=
  VArr [rule_literal "rejected-packages" rejected_condition REJECTED
          PRIORITY_HIGH;
        rule_literal "special-packages" special_condition SPECIAL
          PRIORITY_MEDIUM;
        rule_literal "standard-packages" standard_condition STANDARD
          PRIORITY_LOW].

(** The object literal [{ width, height, length, mass, bulky, heavy }]. *)
Definition package_record (width height length mass : number)
  (bulky heavy : bool) : jsdata :=
  DObj [("width", DNum width); ("height", DNum height);
        ("length", DNum length); ("mass", DNum mass);
        ("bulky", DBool bulky); ("heavy", DBool heavy)].

(** [sort] of packageSorting.js: builds the record, a fresh engine over
    [CLASSIFICATION_RULES], and evaluates. *)
Definition sort (width height length mass : number) : completion string :=
  let packageData :=
    package_record width height length mass
      (isBulky width height length) (isHeavy mass) in
  match new_RuleEngine CLASSIFICATION_RULES with
  | Throw e => Throw e
  | Normal ruleEngine => fst (evaluate packageData ruleEngine)
  end.

(* ================================================================== *)
(** ** Specification vocabulary *)
(* ================================================================== *)

(** What [_validateRule] establishes of a rule. *)
Definition valid_rule (r : Rule) : Prop :=
  trim (name r) <> EmptyString /\
  trim (result r) <> EmptyString /\
  exists q : Q, priority r = Fin q /\ (0 <= q)%Q.

Definition finite_priority (r : Rule) : Prop :=
  exists q : Q, priority r = Fin q.

(** [a] may stand before [b] in priority order. *)
Definition priority_le (a b : Rule) : Prop :=
  num_le (priority a) (priority b).

(** The rules of [l] whose priority is the number [p], in list order. *)
Definition with_priority (p : number) (l : list Rule) : list Rule :=
  filter (fun r => num_geb (priority r) p && num_geb p (priority r)) l.

(** [sorted] is a stable arrangement of [original] by priority: ascending,
    and rules of one priority in the order they have in [original]. *)
Definition stable_by_priority (original sorted : list Rule) : Prop :=
  StronglySorted priority_le sorted /\
  Permutation original sorted /\
  forall p, with_priority p sorted = with_priority p original.

(** Two rules of equal priority. *)
Definition same_priority (a b : Rule) : Prop :=
  priority_le a b /\ priority_le b a.

Definition keeps_other_names (rule_name : string) (rule : Rule) : bool :=
  negb (String.eqb (name rule) rule_name).

(** [history arrivals e]: the engine state [e] is reached from a
    successful construction by successful [addRule] and [removeRule]
    calls, and [arrivals] lists the rules it holds in insertion order:
    the constructor's array, then each added rule behind the others,
    removed rules dropped. *)
Inductive history : list Rule -> RuleEngine -> Prop :=
| hist_new (elems : list jsval) (validated : list Rule) (e : RuleEngine) :
    new_RuleEngine (VArr elems) = Normal e ->
    map_validate elems = Normal validated ->
    history validated e
| hist_addRule (arrivals : list Rule) (rule : jsval) (r : Rule)
    (e e' : RuleEngine) :
    history arrivals e ->
    _validateRule rule = Normal r ->
    addRule rule e = (Normal tt, e') ->
    history (arrivals ++ [r]) e'
| hist_removeRule (arrivals : list Rule) (rule_name : string)
    (e e' : RuleEngine) :
    history arrivals e ->
    removeRule (VStr rule_name) e = (Normal tt, e') ->
    history (filter (keeps_other_names rule_name) arrivals) e'.

Definition reachable (e : RuleEngine) : Prop :=
  exists arrivals, history arrivals e.

Definition names_unique (l : list Rule) : Prop := NoDup (map name l).

(* ================================================================== *)
(** ** Rules and records of the test suite and of the usage notes *)
(* ================================================================== *)

Definition testPackageData : jsdata :=
  package_record 100%Z 100%Z 100%Z 15%Z false false.

(** [() => true], [() => false] *)
Definition always_true : condition_fn := fun _ => Returns true.
Definition always_false : condition_fn := fun _ => Returns false.

(** [() => { throw new Error("Condition error"); }] *)
Definition always_throws : condition_fn :=
  fun _ => Throws (ThrownError "Condition error").

(** [() => { throw null; }] and [() => { throw "boom"; }] *)
Definition throws_null : condition_fn := fun _ => Throws ThrownNull.
Definition throws_string : condition_fn :=
  fun _ => Throws (ThrownOther (DStr "boom")).

(** [(pkg) => pkg.express === true] *)
Definition express_condition : condition_fn :=
  fun pkg =>
    match member pkg "express" with
    | None => Throws (ThrownError (cannot_read pkg "express"))
    | Some (DBool true) => Returns true
    | Some _ => Returns false
    end.

Definition samePriorityRules : jsval :=
  VArr [rule_literal "rule-1" always_true "FIRST" 1%Z;
        rule_literal "rule-2" always_true "SECOND" 1%Z].

Definition errorRule : jsval :=
  rule_literal "error-rule" always_throws "ERROR" 1%Z.

Definition noMatchRules : jsval :=
  VArr [rule_literal "never-match" always_false "NEVER" 1%Z].

Definition expressRule : jsval :=
  rule_literal "express-packages" express_condition "EXPRESS" 0%Z.

Definition duplicateRule : jsval :=
  rule_literal "rejected-packages" always_true "DUPLICATE" 5%Z.

(** The stored form of the three default rules. *)
Definition rejected_rule : Rule :=
  mkRule "rejected-packages" rejected_condition REJECTED PRIORITY_HIGH.
Definition special_rule : Rule :=
  mkRule "special-packages" special_condition SPECIAL PRIORITY_MEDIUM.
Definition standard_rule : Rule :=
  mkRule "standard-packages" standard_condition STANDARD PRIORITY_LOW.
Definition default_engine : RuleEngine :=
  mkEngine [rejected_rule; special_rule; standard_rule].

(* ================================================================== *)
(** ** Further vocabulary *)
(* ================================================================== *)

(** A string without any character that is not white space. *)
Definition blank (s : string) : bool :=
  forallb is_white (list_ascii_of_string s).

(** The truth value a condition sees in the property [k] of a record. *)
Definition flag (packageData : jsdata) (k : string) : bool :=
  match member packageData k with
  | Some v => truthy v
  | None => false
  end.

(** No two rules of the list have equal priority. *)
Definition distinct_priorities (l : list Rule) : Prop :=
  ForallOrdPairs (fun a b => ~ same_priority a b) l.

(** The value of [rule.name] as the array element carries it. *)
Definition literal_name (rule : jsval) : jsval := get rule "name".

(** The stored rule [r] is the array element [rule]: it is read through
    the four property values of that element. *)
Definition rule_of (rule : jsval) (r : Rule) : Prop :=
  get rule "name" = VStr (name r) /\
  get rule "condition" = VFun (condition r) /\
  get rule "result" = VStr (result r) /\
  get rule "priority" = VNum (priority r).

(* ================================================================== *)
(** * Properties *)
(* ================================================================== *)

(** ** Numbers *)

Lemma num_geb_le (x y : number) : num_geb x y = true <-> num_le y x.
Proof.
  destruct x as [| | |a], y as [| | |b]; simpl;
    try (split; [discriminate | contradiction]);
    try (split; [intros _; exact I | reflexivity]).
  destruct (a ?= b)%Q eqn:E.
  - apply Qeq_alt in E. split; [intros _; lra | reflexivity].
  - apply Qlt_alt in E. split; [discriminate | lra].
  - apply Qgt_alt in E. split; [intros _; lra | reflexivity].
Qed.

Lemma num_ltb_Fin (a b : Q) : num_ltb (Fin a) (Fin b) = true <-> (a < b)%Q.
Proof.
  simpl. destruct (a ?= b)%Q eqn:E.
  - apply Qeq_alt in E. split; [discriminate | lra].
  - apply Qlt_alt in E. split; [intros _; assumption | reflexivity].
  - apply Qgt_alt in E. split; [discriminate | lra].
Qed.

(** The comparator of the engine on two finite priorities: positive
    exactly when the first is the larger. *)
Lemma by_priority_gt (a b : Rule) (qa qb : Q) :
  priority a = Fin qa -> priority b = Fin qb ->
  (num_gtb (by_priority a b) 0%Z = true <-> (qb < qa)%Q).
Proof.
  intros Ha Hb. unfold num_gtb, by_priority. rewrite Ha, Hb.
  unfold num_of_Z. cbn [num_sub]. rewrite num_ltb_Fin.
  change (inject_Z 0) with 0%Q. lra.
Qed.

(** Whatever the numbers are, a rule that may stand before another is
    never moved behind it. *)
Lemma by_priority_le_keeps (a b : Rule) :
  priority_le a b -> num_gtb (by_priority a b) 0%Z = false.
Proof.
  unfold priority_le, num_gtb, by_priority, num_of_Z.
  destruct (priority a) as [| | |qa], (priority b) as [| | |qb];
    cbn [num_le num_sub]; try contradiction; try reflexivity.
  intro H. destruct (num_ltb (Fin (inject_Z 0)) (Fin (qa - qb))) eqn:E;
    [| reflexivity].
  apply num_ltb_Fin in E. change (inject_Z 0) with 0%Q in E. lra.
Qed.

Lemma valid_rule_finite (r : Rule) : valid_rule r -> finite_priority r.
Proof. intros (_ & _ & q & Hq & _). exists q. exact Hq. Qed.

(** ** Rounding to binary64 *)

Lemma pow2_pos (z : Z) : (0 < pow2 z)%Q.
Proof. apply Qpower_0_lt. reflexivity. Qed.

Lemma pow2_plus (a b : Z) : (pow2 (a + b) == pow2 a * pow2 b)%Q.
Proof. apply Qpower_plus. discriminate. Qed.

Lemma pow2_le (a b : Z) : (a <= b)%Z -> (pow2 a <= pow2 b)%Q.
Proof. intros H. apply Qpower_le_compat_l; [exact H | discriminate]. Qed.

Lemma pow2_lt (a b : Z) : (a < b)%Z -> (pow2 a < pow2 b)%Q.
Proof. intros H. apply Qpower_lt_compat_l; [exact H | reflexivity]. Qed.

Lemma pow2_lt_inv (a b : Z) : (pow2 a < pow2 b)%Q -> (a < b)%Z.
Proof. intros H. apply (Qpower_lt_compat_l_inv 2); [exact H | reflexivity]. Qed.

Lemma pow2_inject (n : Z) : (0 <= n)%Z -> (inject_Z (2 ^ n) == pow2 n)%Q.
Proof. intros H. apply (Zpower_Qpower 2 n H). Qed.

Lemma pow2_half (z : Z) : (pow2 (z - 1) == pow2 z * (1 # 2))%Q.
Proof.
  replace (z - 1)%Z with (z + -1)%Z by lia. rewrite pow2_plus. reflexivity.
Qed.

Lemma Qmake_den (n : Z) (d : positive) :
  ((n # d) * inject_Z (Zpos d) == inject_Z n)%Q.
Proof. unfold Qeq, Qmult, inject_Z. cbn. lia. Qed.

(** [ilog2] finds the binade of a positive rational. *)
Lemma ilog2_spec (q : Q) :
  (0 < q)%Q -> (pow2 (ilog2 q) <= q)%Q /\ (q < pow2 (ilog2 q + 1))%Q.
Proof.
  intros Hq. destruct q as [n d].
  assert (Hn : (0 < n)%Z) by (unfold Qlt in Hq; cbn in Hq; lia).
  pose proof (Z.log2_spec n Hn) as [Hn1 Hn2].
  pose proof (Z.log2_spec (Zpos d) eq_refl) as [Hd1 Hd2].
  pose proof (Z.log2_nonneg n) as Ha.
  pose proof (Z.log2_nonneg (Zpos d)) as Hb.
  set (a := Z.log2 n) in *. set (b := Z.log2 (Zpos d)) in *.
  assert (Qn1 : (pow2 a <= inject_Z n)%Q)
    by (rewrite <- pow2_inject by lia; rewrite <- Zle_Qle; exact Hn1).
  assert (Qn2 : (inject_Z n < pow2 (a + 1))%Q).
  { rewrite <- pow2_inject by lia. rewrite <- Zlt_Qlt.
    replace (a + 1)%Z with (Z.succ a) by lia. exact Hn2. }
  assert (Qd1 : (pow2 b <= inject_Z (Zpos d))%Q)
    by (rewrite <- pow2_inject by lia; rewrite <- Zle_Qle; exact Hd1).
  assert (Qd2 : (inject_Z (Zpos d) < pow2 (b + 1))%Q).
  { rewrite <- pow2_inject by lia. rewrite <- Zlt_Qlt.
    replace (b + 1)%Z with (Z.succ b) by lia. exact Hd2. }
  pose proof (Qmake_den n d) as Hnd.
  assert (Hdpos : (0 < inject_Z (Zpos d))%Q) by reflexivity.
  (* the quotient lies strictly between 2^(a-b-1) and 2^(a-b+1) *)
  assert (Hlow : (pow2 (a - b - 1) < n # d)%Q).
  { apply Qmult_lt_r with (z := inject_Z (Zpos d)); [exact Hdpos |].
    rewrite Hnd. apply Qlt_le_trans with (pow2 (a - b - 1) * pow2 (b + 1))%Q.
    - apply Qmult_lt_l; [apply pow2_pos | exact Qd2].
    - rewrite <- pow2_plus. replace (a - b - 1 + (b + 1))%Z with a by lia.
      exact Qn1. }
  assert (Hhigh : (n # d < pow2 (a - b + 1))%Q).
  { apply Qmult_lt_r with (z := inject_Z (Zpos d)); [exact Hdpos |].
    rewrite Hnd. apply Qlt_le_trans with (pow2 (a + 1)); [exact Qn2 |].
    apply Qle_trans with (pow2 (a - b + 1) * pow2 b)%Q.
    - rewrite <- pow2_plus. replace (a - b + 1 + b)%Z with (a + 1)%Z by lia.
      apply Qle_refl.
    - apply Qmult_le_l; [apply pow2_pos | exact Qd1]. }
  unfold ilog2. cbn [Qnum Qden]. fold a b.
  destruct (Qle_bool (pow2 (a - b)) (n # d)) eqn:E.
  - apply Qle_bool_iff in E. split; assumption.
  - assert (Hlt : (n # d < pow2 (a - b))%Q).
    { apply Qnot_le_lt. intros H. apply Qle_bool_iff in H. congruence. }
    split.
    + apply Qlt_le_weak. exact Hlow.
    + replace (a - b - 1 + 1)%Z with (a - b)%Z by lia. exact Hlt.
Qed.

Lemma round_half_even_near (s : Q) :
  (Qabs (inject_Z (round_half_even s) - s) <= 1 # 2)%Q.
Proof.
  pose proof (Qfloor_le s) as Hf. pose proof (Qlt_floor s) as Hc.
  rewrite inject_Z_plus in Hc. change (inject_Z 1) with 1%Q in Hc.
  unfold round_half_even.
  set (f := Qfloor s) in *. apply Qabs_Qle_condition.
  destruct (s - inject_Z f ?= 1 # 2)%Q eqn:E.
  - apply Qeq_alt in E. destruct (Z.even f); rewrite ?inject_Z_plus;
      change (inject_Z 1) with 1%Q; split; lra.
  - apply Qlt_alt in E. split; lra.
  - apply Qgt_alt in E. rewrite inject_Z_plus.
    change (inject_Z 1) with 1%Q. split; lra.
Qed.

Lemma round_half_even_floor (s : Q) :
  (Qfloor s <= round_half_even s <= Qfloor s + 1)%Z.
Proof.
  unfold round_half_even.
  destruct (s - inject_Z (Qfloor s) ?= 1 # 2)%Q; [destruct (Z.even _) | |];
    lia.
Qed.

Lemma round64_pos_bound (x : Q) (K : Z) :
  (0 < x)%Q -> (x < pow2 K)%Q -> (-1021 <= K <= 1023)%Z ->
  exists r,
    round64_pos x = Fin r /\
    (Qabs (r - x) <= pow2 (K - 54))%Q /\ (0 <= r)%Q /\ (r <= pow2 K)%Q.
Proof.
  intros Hx HxK HK.
  destruct (ilog2_spec x Hx) as [Hk _].
  assert (HkK : (ilog2 x < K)%Z)
    by (apply pow2_lt_inv; eapply Qle_lt_trans; eassumption).
  unfold round64_pos.
  set (e := Z.max (ilog2 x - 52) (-1074)).
  assert (He : (e <= K - 53)%Z) by (unfold e; lia).
  set (s := (x / pow2 e)%Q).
  set (m := round_half_even s).
  pose proof (pow2_pos e) as HP.
  assert (Hs : (s * pow2 e == x)%Q).
  { unfold s. field. intros H0. rewrite H0 in HP. discriminate. }
  assert (Hspos : (0 < s)%Q).
  { unfold s. apply Qlt_shift_div_l; [exact HP |]. lra. }
  (* the nearest integer is within one half *)
  pose proof (round_half_even_near s) as Hnear.
  apply Qabs_Qle_condition in Hnear. fold m in Hnear.
  destruct Hnear as [Hn1 Hn2].
  assert (Hdiff : (inject_Z m * pow2 e - x == (inject_Z m - s) * pow2 e)%Q)
    by (rewrite <- Hs; ring).
  (* it is not negative and at most 2^(K-e) *)
  pose proof (round_half_even_floor s) as [Hf1 Hf2]. fold m in Hf1, Hf2.
  assert (Hfloor0 : (0 <= Qfloor s)%Z).
  { change 0%Z with (Qfloor 0). apply Qfloor_resp_le. lra. }
  assert (HsK : (s < pow2 (K - e))%Q).
  { unfold s. apply Qlt_shift_div_r; [exact HP |].
    rewrite <- pow2_plus. replace (K - e + e)%Z with K by lia. exact HxK. }
  assert (Hfloor1 : (Qfloor s < 2 ^ (K - e))%Z).
  { rewrite Zlt_Qlt. rewrite pow2_inject by lia.
    eapply Qle_lt_trans; [apply Qfloor_le | exact HsK]. }
  assert (Hm0 : (0 <= inject_Z m)%Q)
    by (change 0%Q with (inject_Z 0); rewrite <- Zle_Qle; lia).
  assert (HmK : (inject_Z m <= pow2 (K - e))%Q)
    by (rewrite <- pow2_inject by lia; rewrite <- Zle_Qle; lia).
  assert (Hr0 : (0 <= inject_Z m * pow2 e)%Q)
    by (apply Qmult_le_0_compat; lra).
  assert (HrK : (inject_Z m * pow2 e <= pow2 K)%Q).
  { apply Qle_trans with (pow2 (K - e) * pow2 e)%Q.
    - apply Qmult_le_compat_r; lra.
    - rewrite <- pow2_plus. replace (K - e + e)%Z with K by lia.
      apply Qle_refl. }
  assert (Hno : Qle_bool (pow2 1024) (inject_Z m * pow2 e) = false).
  { destruct (Qle_bool (pow2 1024) (inject_Z m * pow2 e)) eqn:E;
      [| reflexivity].
    apply Qle_bool_iff in E. exfalso.
    assert (H1 : (pow2 K < pow2 1024)%Q) by (apply pow2_lt; lia).
    lra. }
  rewrite Hno. exists (inject_Z m * pow2 e)%Q.
  split; [reflexivity |]. split; [| split; assumption].
  apply Qabs_Qle_condition. rewrite Hdiff.
  assert (Hhalf : (pow2 e * (1 # 2) <= pow2 (K - 54))%Q).
  { rewrite <- pow2_half. apply pow2_le. lia. }
  split.
  - apply Qle_trans with (- (1 # 2) * pow2 e)%Q; [lra |].
    apply Qmult_le_compat_r; lra.
  - apply Qle_trans with ((1 # 2) * pow2 e)%Q; [| lra].
    apply Qmult_le_compat_r; lra.
Qed.

(** Rounding a non-negative rational below [2^K] moves it by at most half
    a unit in the last place of that range, [2^(K-54)], and does not
    leave the range. *)
Lemma round64_bound (x : Q) (K : Z) :
  (0 <= x)%Q -> (x < pow2 K)%Q -> (-1021 <= K <= 1023)%Z ->
  exists r,
    round64 x = Fin r /\
    (Qabs (r - x) <= pow2 (K - 54))%Q /\ (0 <= r)%Q /\ (r <= pow2 K)%Q.
Proof.
  intros Hx HxK HK. unfold round64, Qsign.
  destruct (x ?= 0)%Q eqn:E.
  - apply Qeq_alt in E. exists 0%Q. split; [reflexivity |].
    pose proof (pow2_pos (K - 54)). pose proof (pow2_pos K).
    split; [| split; lra].
    apply Qabs_Qle_condition. split; lra.
  - apply Qlt_alt in E. lra.
  - apply Qgt_alt in E. apply round64_pos_bound; assumption.
Qed.

Lemma round_half_even_mono (s t : Q) :
  (s <= t)%Q -> (round_half_even s <= round_half_even t)%Z.
Proof.
  intros Hst. pose proof (Qfloor_resp_le s t Hst) as Hf.
  pose proof (round_half_even_floor s) as [_ Hs2].
  pose proof (round_half_even_floor t) as [Ht1 _].
  destruct (Z.eq_dec (Qfloor s) (Qfloor t)) as [E | N]; [| lia].
  unfold round_half_even. rewrite <- E.
  destruct (Qcompare_spec (s - inject_Z (Qfloor s)) (1 # 2)) as [Es | Es | Es];
    destruct (Qcompare_spec (t - inject_Z (Qfloor s)) (1 # 2))
      as [Et | Et | Et];
    try destruct (Z.even (Qfloor s)); try lia; exfalso; lra.
Qed.

(** The rounded value before the overflow test, as a rational. *)
Lemma round64_pos_value (x : Q) :
  round64_pos x
  = let r := (inject_Z (round_half_even
                          (x / pow2 (Z.max (ilog2 x - 52) (-1074))))
              * pow2 (Z.max (ilog2 x - 52) (-1074)))%Q in
    if Qle_bool (pow2 1024) r then PInf else Fin r.
Proof. reflexivity. Qed.

Lemma scaled_rounding_nonneg (x : Q) (e : Z) :
  (0 < x)%Q -> (0 <= inject_Z (round_half_even (x / pow2 e)) * pow2 e)%Q.
Proof.
  intros Hx. pose proof (pow2_pos e) as HP.
  apply Qmult_le_0_compat; [| lra].
  change 0%Q with (inject_Z 0). rewrite <- Zle_Qle.
  pose proof (round_half_even_floor (x / pow2 e)) as [H _].
  assert (H0 : (0 <= Qfloor (x / pow2 e))%Z).
  { change 0%Z with (Qfloor 0). apply Qfloor_resp_le.
    apply Qlt_le_weak. apply Qlt_shift_div_l; [exact HP | lra]. }
  lia.
Qed.

(** Below [2^(k+1)] the rounded value is at most [2^(k+1)]. *)
Lemma scaled_rounding_upper (x : Q) (k e : Z) :
  (0 < x)%Q -> (x < pow2 (k + 1))%Q ->
  (inject_Z (round_half_even (x / pow2 e)) * pow2 e <= pow2 (k + 1))%Q.
Proof.
  intros Hx Hk. pose proof (pow2_pos e) as HP.
  set (s := (x / pow2 e)%Q).
  assert (Hs0 : (0 < s)%Q) by (apply Qlt_shift_div_l; [exact HP | lra]).
  assert (Hs : (s < pow2 (k + 1 - e))%Q).
  { unfold s. apply Qlt_shift_div_r; [exact HP |].
    rewrite <- pow2_plus. replace (k + 1 - e + e)%Z with (k + 1)%Z by lia.
    exact Hk. }
  pose proof (round_half_even_floor s) as [_ Hm].
  destruct (Z.ltb_spec (k + 1 - e) 0) as [Hneg | Hpos].
  - (* the scaled value is below one half: it rounds to 0 *)
    assert (Hhalf : (s < 1 # 2)%Q).
    { eapply Qlt_le_trans; [exact Hs |].
      change (1 # 2)%Q with (pow2 (-1)). apply pow2_le. lia. }
    assert (Hf : Qfloor s = 0%Z).
    { pose proof (Qfloor_le s) as H1. pose proof (Qlt_floor s) as H2.
      assert (H3 : (0 <= Qfloor s)%Z).
      { change 0%Z with (Qfloor 0). apply Qfloor_resp_le. lra. }
      assert (H4 : (Qfloor s < 1)%Z)
        by (rewrite Zlt_Qlt; change (inject_Z 1) with 1%Q; lra).
      lia. }
    assert (Hr : round_half_even s = 0%Z).
    { unfold round_half_even. rewrite Hf.
      assert (Hc : (s - inject_Z 0 ?= 1 # 2)%Q = Lt).
      { apply (proj1 (Qlt_alt _ _)). change (inject_Z 0) with 0%Q. lra. }
      rewrite Hc. reflexivity. }
    rewrite Hr. pose proof (pow2_pos (k + 1)).
    change (inject_Z 0) with 0%Q. lra.
  - assert (Hfl : (Qfloor s < 2 ^ (k + 1 - e))%Z).
    { rewrite Zlt_Qlt, pow2_inject by lia.
      eapply Qle_lt_trans; [apply Qfloor_le | exact Hs]. }
    apply Qle_trans with (pow2 (k + 1 - e) * pow2 e)%Q.
    + apply Qmult_le_compat_r; [| lra].
      rewrite <- pow2_inject by lia. rewrite <- Zle_Qle. lia.
    + rewrite <- pow2_plus. replace (k + 1 - e + e)%Z with (k + 1)%Z by lia.
      apply Qle_refl.
Qed.

(** From [2^k] on, with at least 53 bits kept, the rounded value is at
    least [2^k]. *)
Lemma scaled_rounding_lower (x : Q) (k e : Z) :
  (pow2 k <= x)%Q -> (e <= k)%Z ->
  (pow2 k <= inject_Z (round_half_even (x / pow2 e)) * pow2 e)%Q.
Proof.
  intros Hk He. pose proof (pow2_pos e) as HP.
  set (s := (x / pow2 e)%Q).
  assert (Hs : (pow2 (k - e) <= s)%Q).
  { unfold s. apply Qle_shift_div_l; [exact HP |].
    rewrite <- pow2_plus. replace (k - e + e)%Z with k by lia. exact Hk. }
  pose proof (round_half_even_floor s) as [Hm _].
  assert (Hfl : (2 ^ (k - e) <= Qfloor s)%Z).
  { rewrite <- (Qfloor_Z (2 ^ (k - e))). apply Qfloor_resp_le.
    rewrite pow2_inject by lia. exact Hs. }
  apply Qle_trans with (pow2 (k - e) * pow2 e)%Q.
  - rewrite <- pow2_plus. replace (k - e + e)%Z with k by lia.
    apply Qle_refl.
  - apply Qmult_le_compat_r; [| lra].
    rewrite <- pow2_inject by lia. rewrite <- Zle_Qle. lia.
Qed.

Lemma round64_pos_mono (x y : Q) :
  (0 < x)%Q -> (x <= y)%Q -> num_le (round64_pos x) (round64_pos y).
Proof.
  intros Hx Hxy. assert (Hy : (0 < y)%Q) by lra.
  destruct (ilog2_spec x Hx) as [Hx1 Hx2].
  destruct (ilog2_spec y Hy) as [Hy1 Hy2].
  assert (Hk : (ilog2 x <= ilog2 y)%Z).
  { assert (H : (ilog2 x < ilog2 y + 1)%Z) by (apply pow2_lt_inv; lra).
    lia. }
  rewrite !round64_pos_value. cbv zeta.
  set (ex := Z.max (ilog2 x - 52) (-1074)).
  set (ey := Z.max (ilog2 y - 52) (-1074)).
  set (rx := (inject_Z (round_half_even (x / pow2 ex)) * pow2 ex)%Q).
  set (ry := (inject_Z (round_half_even (y / pow2 ey)) * pow2 ey)%Q).
  assert (Hr : (rx <= ry)%Q).
  { destruct (Z.eq_dec ex ey) as [E | N].
    - unfold rx, ry. rewrite <- E. pose proof (pow2_pos ex) as HP.
      apply Qmult_le_compat_r; [| lra]. rewrite <- Zle_Qle.
      apply round_half_even_mono.
      apply Qmult_le_compat_r; [exact Hxy |].
      apply Qlt_le_weak. apply Qinv_lt_0_compat. exact HP.
    - assert (Hlt : (ilog2 x + 1 <= ilog2 y)%Z) by (unfold ex, ey in N; lia).
      apply Qle_trans with (pow2 (ilog2 x + 1)).
      + apply scaled_rounding_upper; assumption.
      + apply Qle_trans with (pow2 (ilog2 y)); [apply pow2_le; exact Hlt |].
        apply scaled_rounding_lower; [exact Hy1 |]. unfold ey, ex in *. lia. }
  destruct (Qle_bool (pow2 1024) rx) eqn:Ex;
    destruct (Qle_bool (pow2 1024) ry) eqn:Ey; cbn [num_le]; try exact I.
  - apply Qle_bool_iff in Ex.
    assert (H : Qle_bool (pow2 1024) ry = true)
      by (apply Qle_bool_iff; lra).
    congruence.
  - exact Hr.
Qed.

Lemma round64_pos_nonneg (x : Q) :
  (0 < x)%Q -> num_le (Fin 0) (round64_pos x).
Proof.
  intros Hx. rewrite round64_pos_value. cbv zeta.
  destruct (Qle_bool _ _); cbn [num_le]; [exact I |].
  apply scaled_rounding_nonneg. exact Hx.
Qed.

(** Rounding is monotone (on the non-negative rationals). *)
Lemma round64_mono (x y : Q) :
  (0 <= x)%Q -> (x <= y)%Q -> num_le (round64 x) (round64 y).
Proof.
  intros Hx Hxy. unfold round64, Qsign.
  destruct (Qcompare_spec x 0) as [Ex | Ex | Ex];
    destruct (Qcompare_spec y 0) as [Ey | Ey | Ey];
    try (exfalso; lra).
  - cbn [num_le]. lra.
  - apply round64_pos_nonneg. exact Ey.
  - apply round64_pos_mono; assumption.
Qed.

Lemma isBulky_true_iff (width height length : number) :
  isBulky width height length = true <->
  num_le 150%Z width \/ num_le 150%Z height \/ num_le 150%Z length \/
  num_le 1000000%Z (num_mul (num_mul width height) length).
Proof.
  rewrite <- !num_geb_le. unfold isBulky.
  change DIMENSION_THRESHOLD with (num_of_Z 150).
  change VOLUME_THRESHOLD with (num_of_Z 1000000).
  destruct (num_geb width 150%Z), (num_geb height 150%Z),
    (num_geb length 150%Z),
    (num_geb (num_mul (num_mul width height) length) 1000000%Z);
    cbn [orb]; intuition discriminate.
Qed.

(** The volume the code computes for dimensions below the dimension
    threshold: both products are finite, and the result is within
    [2^-30] of the exact volume, strictly. *)
Lemma volume_below_threshold (w h l : Q) :
  (0 <= w)%Q -> (0 <= h)%Q -> (0 <= l)%Q ->
  (w < 150)%Q -> (h < 150)%Q -> (l < 150)%Q ->
  exists p v,
    round64 (w * h) = Fin p /\ round64 (p * l) = Fin v /\
    (Qabs (v - w * h * l) < pow2 (-30))%Q.
Proof.
  intros Hw Hh Hl Hw' Hh' Hl'.
  assert (E15 : pow2 15 = 32768%Q) by reflexivity.
  assert (E22 : pow2 22 = 4194304%Q) by reflexivity.
  assert (E39 : pow2 (15 - 54) = (1 # 549755813888)%Q) by reflexivity.
  assert (E32 : pow2 (22 - 54) = (1 # 4294967296)%Q) by reflexivity.
  assert (E30 : pow2 (-30) = (1 # 1073741824)%Q) by reflexivity.
  assert (Hwh0 : (0 <= w * h)%Q) by (apply Qmult_le_0_compat; assumption).
  assert (Hwh : (w * h <= 150 * 150)%Q).
  { apply Qle_trans with (w * 150)%Q.
    - rewrite (Qmult_comm w h), (Qmult_comm w 150).
      apply Qmult_le_compat_r; lra.
    - apply Qmult_le_compat_r; lra. }
  destruct (round64_bound (w * h) 15) as (p & Hp & Hpe & Hp0 & _);
    [exact Hwh0 | rewrite E15; lra | lia |].
  rewrite E39 in Hpe. apply Qabs_Qle_condition in Hpe.
  destruct Hpe as [Hp1 Hp2].
  assert (Hpl0 : (0 <= p * l)%Q) by (apply Qmult_le_0_compat; assumption).
  assert (Hpl : (p * l <= (150 * 150 + 1) * 150)%Q).
  { apply Qle_trans with (p * 150)%Q.
    - rewrite (Qmult_comm p l), (Qmult_comm p 150).
      apply Qmult_le_compat_r; lra.
    - apply Qmult_le_compat_r; lra. }
  destruct (round64_bound (p * l) 22) as (v & Hv & Hve & _ & _);
    [exact Hpl0 | rewrite E22; lra | lia |].
  rewrite E32 in Hve. apply Qabs_Qle_condition in Hve.
  destruct Hve as [Hv1 Hv2].
  exists p, v. split; [exact Hp |]. split; [exact Hv |].
  rewrite E30. apply Qabs_Qlt_condition.
  (* (p - w h) l lies within 150 / 2^39 of 0 *)
  assert (Hd1 : ((p - w * h) * l <= (1 # 549755813888) * 150)%Q).
  { apply Qle_trans with ((1 # 549755813888) * l)%Q.
    - apply Qmult_le_compat_r; lra.
    - rewrite (Qmult_comm _ l), (Qmult_comm _ 150).
      apply Qmult_le_compat_r; lra. }
  assert (Hd2 : (- ((1 # 549755813888) * 150) <= (p - w * h) * l)%Q).
  { apply Qle_trans with (- (1 # 549755813888) * l)%Q.
    - assert (H : ((1 # 549755813888) * l <= (1 # 549755813888) * 150)%Q).
      { rewrite (Qmult_comm _ l), (Qmult_comm _ 150).
        apply Qmult_le_compat_r; lra. }
      lra.
    - apply Qmult_le_compat_r; lra. }
  assert (Hsplit : (v - w * h * l == (v - p * l) + (p - w * h) * l)%Q) by ring.
  rewrite Hsplit. split; lra.
Qed.

Lemma num_le_trans (x y z : number) : num_le x y -> num_le y z -> num_le x z.
Proof.
  destruct x as [| | |a], y as [| | |b], z as [| | |c]; simpl;
    try contradiction; try (intros; exact I).
  apply Qle_trans.
Qed.

Lemma priority_le_trans (a b c : Rule) :
  priority_le a b -> priority_le b c -> priority_le a c.
Proof. apply num_le_trans. Qed.

(** Two finite priorities are always comparable. *)
Lemma by_priority_not_gt (a b : Rule) :
  finite_priority a -> finite_priority b ->
  num_gtb (by_priority a b) 0%Z = false -> priority_le a b.
Proof.
  intros [qa Ha] [qb Hb] H.
  destruct (Qlt_le_dec qb qa) as [Hlt | Hle].
  - apply (by_priority_gt a b qa qb Ha Hb) in Hlt. congruence.
  - unfold priority_le. rewrite Ha, Hb. exact Hle.
Qed.

Lemma by_priority_gt_le (a b : Rule) :
  finite_priority a -> finite_priority b ->
  num_gtb (by_priority a b) 0%Z = true -> priority_le b a.
Proof.
  intros [qa Ha] [qb Hb] H.
  apply (by_priority_gt a b qa qb Ha Hb) in H.
  unfold priority_le. rewrite Ha, Hb. simpl. lra.
Qed.

(** ** [Array.prototype.sort] *)

Section Sorting.
Context {A : Type} (comparefn : A -> A -> number).

Lemma insert_perm (x : A) (l : list A) :
  Permutation (x :: l) (insert comparefn x l).
Proof.
  induction l as [| y l IH]; cbn [insert].
  - apply Permutation_refl.
  - destruct (num_gtb (comparefn x y) 0%Z).
    + apply perm_trans with (y :: x :: l).
      * apply perm_swap.
      * apply perm_skip. exact IH.
    + apply Permutation_refl.
Qed.

Lemma Array_sort_perm (l : list A) : Permutation l (Array_sort comparefn l).
Proof.
  induction l as [| x l IH]; cbn [Array_sort].
  - apply perm_nil.
  - apply perm_trans with (x :: Array_sort comparefn l).
    + apply perm_skip. exact IH.
    + apply insert_perm.
Qed.
End Sorting.

(** An element that may stand before all of [l] is inserted at the front. *)
Lemma insert_front (x : Rule) (l : list Rule) :
  Forall (priority_le x) l -> insert by_priority x l = x :: l.
Proof.
  intros H. destruct l as [| y l]; [reflexivity |].
  cbn [insert]. inversion H as [| ? ? Hy _]; subst.
  rewrite (by_priority_le_keeps x y Hy). reflexivity.
Qed.

Lemma insert_sorted (x : Rule) (l : list Rule) :
  finite_priority x -> Forall finite_priority l ->
  StronglySorted priority_le l ->
  StronglySorted priority_le (insert by_priority x l).
Proof.
  intros Hx Hfin Hs. induction Hs as [| y l Hs IH Hy]; cbn [insert].
  - constructor; constructor.
  - inversion Hfin as [| ? ? Hfy Hfl]; subst.
    destruct (num_gtb (by_priority x y) 0%Z) eqn:E.
    + constructor.
      * apply IH. exact Hfl.
      * apply (Permutation_Forall (insert_perm by_priority x l)).
        constructor; [| exact Hy].
        apply by_priority_gt_le with (1 := Hx) (2 := Hfy). exact E.
    + assert (Hxy : priority_le x y)
        by (apply by_priority_not_gt; assumption).
      constructor.
      * constructor; assumption.
      * constructor; [exact Hxy |].
        eapply Forall_impl; [| exact Hy].
        intros z Hz. eapply priority_le_trans; eassumption.
Qed.

Lemma Array_sort_sorted (l : list Rule) :
  Forall finite_priority l ->
  StronglySorted priority_le (Array_sort by_priority l).
Proof.
  induction 1 as [| x l Hx Hl IH]; cbn [Array_sort].
  - constructor.
  - apply insert_sorted; [exact Hx | | exact IH].
    apply (Permutation_Forall (Array_sort_perm by_priority l)). exact Hl.
Qed.

(** Rules of one priority are never reordered by an insertion. *)
Lemma same_priority_not_gt (p : number) (x y : Rule) :
  num_geb (priority x) p && num_geb p (priority x) = true ->
  num_geb (priority y) p && num_geb p (priority y) = true ->
  num_gtb (by_priority x y) 0%Z = false.
Proof.
  intros Hx Hy. apply andb_prop in Hx, Hy.
  destruct Hx as [Hx1 Hx2], Hy as [Hy1 Hy2].
  apply num_geb_le in Hx1, Hx2, Hy1, Hy2.
  apply by_priority_le_keeps. unfold priority_le.
  eapply num_le_trans; eassumption.
Qed.

Lemma with_priority_insert (p : number) (x : Rule) (l : list Rule) :
  with_priority p (insert by_priority x l) = with_priority p (x :: l).
Proof.
  unfold with_priority. induction l as [| y l IH]; [reflexivity |].
  cbn [insert]. destruct (num_gtb (by_priority x y) 0%Z) eqn:E;
    [| reflexivity].
  cbn [filter] in *. rewrite IH.
  destruct (num_geb (priority x) p && num_geb p (priority x)) eqn:Fx;
    destruct (num_geb (priority y) p && num_geb p (priority y)) eqn:Fy;
    try reflexivity.
  rewrite (same_priority_not_gt p x y Fx Fy) in E. discriminate.
Qed.

Lemma with_priority_sort (p : number) (l : list Rule) :
  with_priority p (Array_sort by_priority l) = with_priority p l.
Proof.
  induction l as [| x l IH]; [reflexivity |].
  cbn [Array_sort]. rewrite with_priority_insert.
  unfold with_priority in *. cbn [filter]. rewrite IH. reflexivity.
Qed.

(** The sort the engine runs after every change of [this.rules] is a
    stable arrangement by priority. *)
Lemma Array_sort_stable (l : list Rule) :
  Forall finite_priority l ->
  stable_by_priority l (Array_sort by_priority l).
Proof.
  intros H. split; [| split].
  - apply Array_sort_sorted. exact H.
  - apply Array_sort_perm.
  - intro p. apply with_priority_sort.
Qed.

(** Sorting a sorted array with one more element pushed at its end: the
    new element lands behind every rule that may stand before it and in
    front of the rules of strictly larger priority. *)
Lemma Array_sort_push (l : list Rule) (r : Rule) :
  StronglySorted priority_le l -> Forall finite_priority l ->
  finite_priority r ->
  exists pre post,
    l = pre ++ post /\
    Array_sort by_priority (l ++ [r]) = pre ++ r :: post /\
    Forall (fun x => priority_le x r) pre /\
    Forall (fun y => num_ltb (priority r) (priority y) = true) post.
Proof.
  intros Hs Hfin Hr. induction Hs as [| y l Hs IH Hy].
  - exists [], []. repeat split; constructor.
  - inversion Hfin as [| ? ? Hfy Hfl]; subst.
    destruct (IH Hfl) as (pre & post & Hl & Hsort & Hpre & Hpost).
    cbn [app Array_sort]. rewrite Hsort.
    destruct (num_gtb (by_priority y r) 0%Z) eqn:E.
    + (* y has the larger priority: nothing of [l] stays before [r] *)
      destruct Hfy as [qy Hqy], Hr as [qr Hqr].
      pose proof (proj1 (by_priority_gt y r qy qr Hqy Hqr) E) as Hlt.
      assert (pre = []) as ->.
      { destruct pre as [| z pre]; [reflexivity | exfalso].
        inversion Hpre as [| ? ? Hz _]; subst.
        assert (Hyz : priority_le y z).
        { rewrite Forall_forall in Hy. apply Hy. left. reflexivity. }
        pose proof (priority_le_trans _ _ _ Hyz Hz) as Hyr.
        unfold priority_le in Hyr. rewrite Hqy, Hqr in Hyr. simpl in Hyr.
        lra. }
      cbn [app] in *. subst l. cbn [insert]. rewrite E.
      rewrite (insert_front y post Hy).
      exists [], (y :: post). repeat split.
      * constructor.
      * constructor; [| exact Hpost].
        rewrite Hqy, Hqr. apply num_ltb_Fin. exact Hlt.
    + assert (Hyr : priority_le y r)
        by (apply by_priority_not_gt; assumption).
      rewrite insert_front.
      * exists (y :: pre), post. subst l. repeat split.
        -- constructor; assumption.
        -- exact Hpost.
      * subst l. apply Forall_app in Hy. destruct Hy as [Hy1 Hy2].
        apply Forall_app. split; [exact Hy1 |].
        constructor; [exact Hyr | exact Hy2].
Qed.

(** ** Validation *)

Lemma validateRule_valid (rule : jsval) (r : Rule) :
  _validateRule rule = Normal r -> valid_rule r.
Proof.
  unfold _validateRule, config_error.
  destruct (negb (is_object rule)); [discriminate |].
  destruct (first_missing requiredProperties rule); [discriminate |].
  destruct (get rule "name") as [| | | | rule_name | | |]; try discriminate.
  destruct (String.eqb (trim rule_name) EmptyString) eqn:En;
    [discriminate |].
  destruct (get rule "condition") as [| | | | | rule_condition | |];
    try discriminate.
  destruct (get rule "result") as [| | | | rule_result | | |];
    try discriminate.
  destruct (String.eqb (trim rule_result) EmptyString) eqn:Er;
    [discriminate |].
  destruct (get rule "priority") as [| | | rule_priority | | | |];
    try discriminate.
  destruct (num_ltb rule_priority 0%Z || negb (isFinite rule_priority))
    eqn:Ep; [discriminate |].
  intros [= <-]. unfold valid_rule. cbn [name result priority].
  apply String.eqb_neq in En, Er.
  apply orb_false_elim in Ep. destruct Ep as [Hneg Hfin].
  repeat split; try assumption.
  destruct rule_priority as [| | | q]; try discriminate.
  exists q. split; [reflexivity |].
  destruct (Qlt_le_dec q 0) as [Hlt | Hle]; [| exact Hle].
  apply (num_ltb_Fin q 0) in Hlt. unfold num_of_Z in Hneg.
  change (inject_Z 0) with 0%Q in Hneg. congruence.
Qed.

Lemma map_validate_valid (elems : list jsval) (validated : list Rule) :
  map_validate elems = Normal validated -> Forall valid_rule validated.
Proof.
  revert validated. induction elems as [| rule rest IH]; intros validated.
  - intros [= <-]. constructor.
  - cbn [map_validate].
    destruct (_validateRule rule) as [r |] eqn:Er; [| discriminate].
    destruct (map_validate rest) as [rs |]; [| discriminate].
    intros [= <-]. constructor.
    + eapply validateRule_valid. exact Er.
    + apply IH. reflexivity.
Qed.

(** [_validateRule] returns the object it was given. *)
Lemma validateRule_rule_of (rule : jsval) (r : Rule) :
  _validateRule rule = Normal r -> rule_of rule r.
Proof.
  unfold _validateRule, config_error, rule_of.
  destruct (negb (is_object rule)); [discriminate |].
  destruct (first_missing requiredProperties rule); [discriminate |].
  destruct (get rule "name") as [| | | | rule_name | | |]; try discriminate.
  destruct (String.eqb (trim rule_name) EmptyString); [discriminate |].
  destruct (get rule "condition") as [| | | | | rule_condition | |];
    try discriminate.
  destruct (get rule "result") as [| | | | rule_result | | |];
    try discriminate.
  destruct (String.eqb (trim rule_result) EmptyString); [discriminate |].
  destruct (get rule "priority") as [| | | rule_priority | | | |];
    try discriminate.
  destruct (num_ltb rule_priority 0%Z || negb (isFinite rule_priority));
    [discriminate |].
  intros [= <-]. repeat split.
Qed.

(** The validated array has the elements of the array, one for one and in
    the same order. *)
Lemma map_validate_rule_of (elems : list jsval) (validated : list Rule) :
  map_validate elems = Normal validated -> Forall2 rule_of elems validated.
Proof.
  revert validated. induction elems as [| rule rest IH]; intros validated.
  - intros [= <-]. constructor.
  - cbn [map_validate].
    destruct (_validateRule rule) as [r |] eqn:Er; [| discriminate].
    destruct (map_validate rest) as [rs |]; [| discriminate].
    intros [= <-]. constructor.
    + apply validateRule_rule_of. exact Er.
    + apply IH. reflexivity.
Qed.

Lemma Forall_valid_finite (l : list Rule) :
  Forall valid_rule l -> Forall finite_priority l.
Proof. apply Forall_impl. exact valid_rule_finite. Qed.

(** A successful construction stores the validated array, stably sorted. *)
Lemma new_RuleEngine_inv (rules0 : jsval) (e : RuleEngine) :
  new_RuleEngine rules0 = Normal e ->
  exists elems validated,
    rules0 = VArr elems /\ elems <> [] /\
    map_validate elems = Normal validated /\
    rules e = Array_sort by_priority validated.
Proof.
  unfold new_RuleEngine, config_error.
  destruct rules0 as [| | | | | | elems |]; try discriminate.
  destruct elems as [| rule rest]; [discriminate |].
  cbn [List.length Nat.eqb].
  destruct (map_validate (rule :: rest)) as [validated |] eqn:Ev;
    [| discriminate].
  intros [= <-]. exists (rule :: rest), validated.
  repeat split; [discriminate | exact Ev].
Qed.

(** ** The scan of [evaluate] *)

(** The three ways the loop ends: at the first rule whose condition
    returns true, at the first rule whose condition throws, or behind the
    last rule.  Every rule in front of the stopping point returned false,
    and the calls made are exactly the rules up to that point. *)
Lemma evaluate_loop_cases (rs : list Rule) (d : jsdata) :
  (exists pre r post,
      rs = pre ++ r :: post /\
      Forall (fun x => condition x d = Returns false) pre /\
      condition r d = Returns true /\
      evaluate_loop rs d = (pre ++ [r], Normal (result r)))
  \/ (exists pre r post error,
      rs = pre ++ r :: post /\
      Forall (fun x => condition x d = Returns false) pre /\
      condition r d = Throws error /\
      evaluate_loop rs d = (pre ++ [r], rethrow r error))
  \/ (Forall (fun x => condition x d = Returns false) rs /\
      evaluate_loop rs d = (rs, Throw (Error NoMatchError no_match_message))).
Proof.
  induction rs as [| x rs IH].
  - right; right. split; [constructor | reflexivity].
  - cbn [evaluate_loop]. destruct (condition x d) as [[|] | msg] eqn:Ex.
    + left. exists [], x, rs. repeat split; [constructor | exact Ex].
    + destruct IH as [(pre & r & post & Hrs & Hpre & Hr & Hl)
                     | [(pre & r & post & m & Hrs & Hpre & Hr & Hl)
                       | (Hall & Hl)]]; rewrite Hl.
      * left. exists (x :: pre), r, post. subst rs.
        repeat split; [constructor; assumption | exact Hr].
      * right; left. exists (x :: pre), r, post, m. subst rs.
        repeat split; [constructor; assumption | exact Hr].
      * right; right. split; [constructor; assumption | reflexivity].
    + right; left. exists [], x, rs, msg.
      repeat split; [constructor | exact Ex].
Qed.

Lemma evaluate_loop_match (d : jsdata) (pre : list Rule) (r : Rule)
  (post : list Rule) :
  Forall (fun x => condition x d = Returns false) pre ->
  condition r d = Returns true ->
  evaluate_loop (pre ++ r :: post) d = (pre ++ [r], Normal (result r)).
Proof.
  intros Hpre Hr. induction Hpre as [| x pre Hx _ IH]; cbn [app evaluate_loop].
  - rewrite Hr. reflexivity.
  - rewrite Hx, IH. reflexivity.
Qed.

Lemma evaluate_loop_calls_front (d : jsdata) (pre : list Rule) (r : Rule)
  (post : list Rule) :
  Forall (fun x => condition x d = Returns false) pre ->
  exists rest, fst (evaluate_loop (pre ++ r :: post) d) = pre ++ r :: rest.
Proof.
  intros Hpre. induction Hpre as [| x pre Hx _ IH]; cbn [app evaluate_loop].
  - destruct (condition r d) as [[|] | msg].
    + exists []. reflexivity.
    + destruct (evaluate_loop post d) as [called c]. exists called.
      reflexivity.
    + exists []. reflexivity.
  - rewrite Hx. destruct IH as [rest IH].
    destruct (evaluate_loop (pre ++ r :: post) d) as [called c].
    cbn [fst] in *. exists rest. rewrite IH. reflexivity.
Qed.

(** Once a rule returns true, the scan has stopped at it or before it. *)
Lemma evaluate_loop_stops_by (d : jsdata) (pre : list Rule) (r : Rule)
  (post : list Rule) :
  condition r d = Returns true ->
  exists unreached,
    pre ++ [r] = fst (evaluate_loop (pre ++ r :: post) d) ++ unreached.
Proof.
  intros Hr. induction pre as [| x pre IH]; cbn [app evaluate_loop].
  - rewrite Hr. exists []. reflexivity.
  - destruct (condition x d) as [[|] | msg].
    + exists (pre ++ [r]). reflexivity.
    + destruct IH as [unreached IH].
      destruct (evaluate_loop (pre ++ r :: post) d) as [called c].
      cbn [fst] in *. exists unreached. rewrite IH. reflexivity.
    + exists (pre ++ [r]). reflexivity.
Qed.

(** ** Lists *)

Lemma filter_length_id {A : Type} (f : A -> bool) (l : list A) :
  List.length (filter f l) = List.length l -> filter f l = l.
Proof.
  induction l as [| x l IH]; [reflexivity |].
  cbn [filter]. destruct (f x); cbn [List.length]; intros H.
  - f_equal. apply IH. lia.
  - pose proof (filter_length_le f l). lia.
Qed.

Lemma StronglySorted_filter {A : Type} (R : A -> A -> Prop) (f : A -> bool)
  (l : list A) :
  StronglySorted R l -> StronglySorted R (filter f l).
Proof.
  induction 1 as [| x l Hs IH Hx]; cbn [filter]; [constructor |].
  destruct (f x); [| exact IH].
  constructor; [exact IH |].
  rewrite Forall_forall in *. intros y Hy. apply filter_In in Hy.
  apply Hx. apply Hy.
Qed.


(** A filtered list that contains [x] splits the list at [x]. *)
Lemma filter_split {A : Type} (f : A -> bool) (l front back : list A) (x : A) :
  filter f l = front ++ x :: back ->
  exists l1 l2,
    l = l1 ++ x :: l2 /\ filter f l1 = front /\ filter f l2 = back.
Proof.
  revert front. induction l as [| y l IH]; intros front H.
  - destruct front; discriminate.
  - cbn [filter] in H. destruct (f y) eqn:Fy.
    + destruct front as [| z front].
      * injection H as -> H. exists [], l. repeat split. exact H.
      * injection H as -> H. destruct (IH front H) as (l1 & l2 & -> & H1 & H2).
        exists (z :: l1), l2. repeat split; [| exact H2].
        cbn [filter]. rewrite Fy, H1. reflexivity.
    + destruct (IH front H) as (l1 & l2 & -> & H1 & H2).
      exists (y :: l1), l2. repeat split; [| exact H2].
      cbn [filter]. rewrite Fy. exact H1.
Qed.

(** ** [addRule] and [removeRule] *)

Lemma same_name_exists (r : Rule) (l : list Rule) :
  existsb (fun existingRule => String.eqb (name existingRule) (name r)) l
  = true
  <-> exists x, In x l /\ name x = name r.
Proof.
  rewrite existsb_exists. split; intros (x & Hin & H); exists x;
    (split; [exact Hin |]); apply String.eqb_eq; exact H.
Qed.

Lemma addRule_inv (rule : jsval) (e e' : RuleEngine) :
  addRule rule e = (Normal tt, e') ->
  exists r,
    _validateRule rule = Normal r /\
    ~ (exists x, In x (rules e) /\ name x = name r) /\
    rules e' = Array_sort by_priority (rules e ++ [r]).
Proof.
  unfold addRule, config_error.
  destruct (_validateRule rule) as [r |]; [| discriminate].
  destruct (existsb _ (rules e)) eqn:Ex; [discriminate |].
  intros [= <-]. exists r. repeat split.
  intros H. apply same_name_exists in H. congruence.
Qed.

Lemma removeRule_inv (ruleName : jsval) (e e' : RuleEngine) :
  removeRule ruleName e = (Normal tt, e') ->
  exists rule_name,
    ruleName = VStr rule_name /\
    rules e' =
      filter (fun rule => negb (String.eqb (name rule) rule_name)) (rules e).
Proof.
  unfold removeRule, config_error.
  destruct ruleName as [| | | | rule_name | | |]; try discriminate.
  destruct (String.eqb (trim rule_name) EmptyString); [discriminate |].
  cbn [rules]. destruct (Nat.eqb _ _); [discriminate |].
  intros [= <-]. exists rule_name. split; reflexivity.
Qed.


Lemma Permutation_filter_both {A : Type} (f : A -> bool) (l l' : list A) :
  Permutation l l' -> Permutation (filter f l) (filter f l').
Proof.
  induction 1 as [| x l l' _ IH | x y l | l l' l'' _ IH1 _ IH2];
    cbn [filter].
  - apply perm_nil.
  - destruct (f x); [apply perm_skip |]; exact IH.
  - destruct (f x), (f y); try apply Permutation_refl. apply perm_swap.
  - eapply perm_trans; eassumption.
Qed.

Lemma filter_swap {A : Type} (f g : A -> bool) (l : list A) :
  filter f (filter g l) = filter g (filter f l).
Proof.
  induction l as [| x l IH]; [reflexivity |].
  cbn [filter]. destruct (f x) eqn:Fx, (g x) eqn:Gx; cbn [filter];
    rewrite ?Fx, ?Gx, IH; reflexivity.
Qed.

(** ** Reachable states *)

(** The stored list is the stable arrangement by priority of the rules in
    insertion order, and every stored rule is valid. *)
Lemma history_stable (arrivals : list Rule) (e : RuleEngine) :
  history arrivals e ->
  Forall valid_rule arrivals /\ stable_by_priority arrivals (rules e).
Proof.
  induction 1 as [elems validated e Hnew Hv
                 | arrivals rule r e e' _ [IHv IHst] Hr Hadd
                 | arrivals rule_name e e' _ [IHv IHst] Hrem].
  - apply new_RuleEngine_inv in Hnew.
    destruct Hnew as (elems' & validated' & [= <-] & _ & Hv' & ->).
    rewrite Hv in Hv'. injection Hv' as <-.
    apply map_validate_valid in Hv. split; [exact Hv |].
    apply Array_sort_stable. apply Forall_valid_finite. exact Hv.
  - apply addRule_inv in Hadd. destruct Hadd as (r' & Hr' & _ & ->).
    rewrite Hr in Hr'. injection Hr' as <-.
    apply validateRule_valid in Hr.
    destruct IHst as (_ & Hperm & Hties).
    assert (Hall : Forall valid_rule (arrivals ++ [r])).
    { apply Forall_app. split; [exact IHv |]. constructor; [exact Hr |].
      constructor. }
    split; [exact Hall |]. split; [| split].
    + apply Array_sort_sorted. apply Forall_valid_finite.
      apply (Permutation_Forall (Permutation_app_tail [r] Hperm)).
      exact Hall.
    + eapply perm_trans; [| apply Array_sort_perm].
      apply Permutation_app_tail. exact Hperm.
    + intro p. rewrite with_priority_sort. unfold with_priority in *.
      rewrite !filter_app, Hties. reflexivity.
  - apply removeRule_inv in Hrem.
    destruct Hrem as (n & [= <-] & ->).
    destruct IHst as (Hs & Hperm & Hties).
    split; [| split; [| split]].
    + rewrite Forall_forall in *. intros x Hx. apply filter_In in Hx.
      apply IHv. apply Hx.
    + apply StronglySorted_filter. exact Hs.
    + apply Permutation_filter_both. exact Hperm.
    + intro p. unfold with_priority in *.
      change (fun rule : Rule => negb (String.eqb (name rule) rule_name))
        with (keeps_other_names rule_name).
      rewrite filter_swap, Hties, filter_swap. reflexivity.
Qed.

Lemma reachable_valid_sorted (e : RuleEngine) :
  reachable e ->
  Forall valid_rule (rules e) /\ StronglySorted priority_le (rules e).
Proof.
  intros [arrivals H]. apply history_stable in H.
  destruct H as (Hv & Hs & Hperm & _). split; [| exact Hs].
  apply (Permutation_Forall Hperm). exact Hv.
Qed.



(** ** A few runs of the classifier *)

Example sort_volume_at_threshold :
  sort 100%Z 100%Z 100%Z 10%Z = Normal SPECIAL.
Proof. reflexivity. Qed.

Example sort_width_and_mass_at_threshold :
  sort 150%Z 50%Z 50%Z 20%Z = Normal REJECTED.
Proof. reflexivity. Qed.

Example sort_light_and_small :
  DecisionMatrix.sort 50%Z 50%Z 50%Z (literal 19.9) = STANDARD.
Proof. reflexivity. Qed.

Example sort_volume_just_below :
  DecisionMatrix.sort (literal 99.99) 100%Z 100%Z 20%Z = SPECIAL.
Proof. reflexivity. Qed.

Example isHeavy_just_below : isHeavy (literal 19.999) = false.
Proof. reflexivity. Qed.

(** The constructor does not compare names: an array with two rules of
    one name is accepted. *)
Example constructor_accepts_one_name_twice :
  exists e,
    new_RuleEngine
      (VArr [rule_literal "test" (fun _ => Returns true) "A" 1%Z;
             rule_literal "test" (fun _ => Returns false) "B" 2%Z])
    = Normal e /\
    map name (rules e) = ["test"; "test"].
Proof. eexists. split; reflexivity. Qed.

(* ================================================================== *)
(** * The claims *)
(* ================================================================== *)

(** ** Classifier *)

(** The engine over [CLASSIFICATION_RULES]: the three rules already are
    in priority order. *)
Lemma CLASSIFICATION_RULES_engine :
  new_RuleEngine CLASSIFICATION_RULES
  = Normal default_engine.
Proof. reflexivity. Qed.

(** On a record with boolean flags the three default rules are the
    decision matrix. *)
Lemma evaluate_default_rules (packageData : jsdata) (bulky heavy : bool)
  (engine : RuleEngine) :
  new_RuleEngine CLASSIFICATION_RULES = Normal engine ->
  member packageData "bulky" = Some (DBool bulky) ->
  member packageData "heavy" = Some (DBool heavy) ->
  evaluate packageData engine
  = (Normal (if bulky && heavy then REJECTED
             else if bulky || heavy then SPECIAL else STANDARD), engine).
Proof.
  rewrite CLASSIFICATION_RULES_engine. intros [= <-] Hb Hh.
  assert (Hs : is_structured packageData = true).
  { destruct packageData; try discriminate; reflexivity. }
  unfold evaluate. rewrite Hs.
  cbn [negb rules default_engine evaluate_loop condition rejected_rule
         special_rule standard_rule].
  unfold rejected_condition, special_condition, standard_condition.
  rewrite Hb, Hh. cbn [truthy js_and js_or].
  destruct bulky, heavy; reflexivity.
Qed.

(** C1. For every width, height, length and mass, and every record whose
    [bulky] property is [isBulky(width, height, length)] and whose [heavy]
    property is [isHeavy(mass)], the engine constructed from
    [CLASSIFICATION_RULES] exists and [evaluate] on the record returns the
    label the decision-matrix [sort(width, height, length, mass)]
    returns. *)
Theorem default_rules_agree_with_sort
  (width height length mass : number) (packageData : jsdata) :
  member packageData "bulky" = Some (DBool (isBulky width height length)) ->
  member packageData "heavy" = Some (DBool (isHeavy mass)) ->
  exists engine,
    new_RuleEngine CLASSIFICATION_RULES = Normal engine /\
    evaluate packageData engine
    = (Normal (DecisionMatrix.sort width height length mass), engine).
Proof.
  intros Hb Hh. eexists. split; [apply CLASSIFICATION_RULES_engine |].
  apply evaluate_default_rules with (2 := Hb) (3 := Hh).
  apply CLASSIFICATION_RULES_engine.
Qed.

Lemma default_rules_agree_with_sort_witness :
  exists engine,
    new_RuleEngine CLASSIFICATION_RULES = Normal engine /\
    evaluate (package_record 100%Z 100%Z 100%Z 10%Z true false) engine
    = (Normal SPECIAL, engine).
Proof.
  exact (default_rules_agree_with_sort 100%Z 100%Z 100%Z 10%Z
           (package_record 100%Z 100%Z 100%Z 10%Z true false)
           eq_refl eq_refl).
Defined.

(** C2. For all numbers width, height, length and mass, [sort] returns
    REJECTED when the package is bulky and heavy, SPECIAL when it is
    exactly one of the two, STANDARD when it is neither; a mass is heavy
    exactly when it is at least 20.  This holds of the decision-matrix
    [sort] and, through it, of the rule-based [sort]. *)
Theorem sort_decision_matrix (width height length mass : number) :
  DecisionMatrix.sort width height length mass
  = match isBulky width height length, isHeavy mass with
    | true, true => REJECTED
    | true, false | false, true => SPECIAL
    | false, false => STANDARD
    end
  /\ (isHeavy mass = true <-> num_le 20%Z mass)
  /\ sort width height length mass
     = Normal (DecisionMatrix.sort width height length mass).
Proof.
  split; [| split].
  - unfold DecisionMatrix.sort.
    destruct (isBulky width height length), (isHeavy mass); reflexivity.
  - unfold isHeavy, MASS_THRESHOLD. apply num_geb_le.
  - unfold sort. rewrite CLASSIFICATION_RULES_engine.
    rewrite (evaluate_default_rules
               (package_record width height length mass
                  (isBulky width height length) (isHeavy mass))
               (isBulky width height length) (isHeavy mass) _
               CLASSIFICATION_RULES_engine eq_refl eq_refl).
    reflexivity.
Qed.

(** C3, as the code has it.  For all finite width, height, length at
    least 0, [isBulky] returns true if and only if width >= 150, or
    height >= 150, or length >= 150, or the volume the code computes is
    at least 1000000, that volume being the binary64 product: width *
    height rounded, times length, rounded.  The answer is the one of the
    exact volume width x height x length whenever that is not within
    2^-30 of the threshold: true from 1000000 + 2^-30 on, and false up to
    1000000 - 2^-30 when no dimension reaches 150.  Testing the
    dimensions first does not show in the result. *)
Theorem isBulky_iff (width height length : Q) :
  (0 <= width)%Q -> (0 <= height)%Q -> (0 <= length)%Q ->
  (isBulky (Fin width) (Fin height) (Fin length) = true <->
   (150 <= width)%Q \/ (150 <= height)%Q \/ (150 <= length)%Q \/
   exists p v,
     round64 (width * height) = Fin p /\ round64 (p * length) = Fin v /\
     (1000000 <= v)%Q)
  /\ ((1000000 + pow2 (-30) <= width * height * length)%Q ->
      isBulky (Fin width) (Fin height) (Fin length) = true)
  /\ ((width < 150)%Q -> (height < 150)%Q -> (length < 150)%Q ->
      (width * height * length <= 1000000 - pow2 (-30))%Q ->
      isBulky (Fin width) (Fin height) (Fin length) = false).
Proof.
  intros Hw Hh Hl.
  assert (Hdims : ((150 <= width)%Q \/ (150 <= height)%Q
                   \/ (150 <= length)%Q)
                  \/ ((width < 150)%Q /\ (height < 150)%Q
                      /\ (length < 150)%Q)).
  { destruct (Qlt_le_dec width 150); [| tauto].
    destruct (Qlt_le_dec height 150); [| tauto].
    destruct (Qlt_le_dec length 150); tauto. }
  assert (Hbig : (150 <= width)%Q \/ (150 <= height)%Q \/ (150 <= length)%Q ->
                 isBulky (Fin width) (Fin height) (Fin length) = true).
  { intros H. apply isBulky_true_iff. unfold num_of_Z. cbn [num_le].
    change (inject_Z 150) with 150%Q. tauto. }
  assert (Hsmall :
            (width < 150)%Q -> (height < 150)%Q -> (length < 150)%Q ->
            exists p v,
              round64 (width * height) = Fin p /\
              round64 (p * length) = Fin v /\
              (Qabs (v - width * height * length) < pow2 (-30))%Q /\
              (isBulky (Fin width) (Fin height) (Fin length) = true
               <-> (1000000 <= v)%Q)).
  { intros Hw' Hh' Hl'.
    destruct (volume_below_threshold width height length)
      as (p & v & Hp & Hv & Herr); try assumption.
    exists p, v. repeat split; try assumption.
    - intros H. apply isBulky_true_iff in H. unfold num_of_Z in H.
      cbn [num_le num_mul] in H. rewrite Hp in H. cbn [num_mul] in H.
      rewrite Hv in H. cbn [num_le] in H.
      change (inject_Z 150) with 150%Q in H.
      change (inject_Z 1000000) with 1000000%Q in H.
      destruct H as [H | [H | [H | H]]]; lra.
    - intros H. apply isBulky_true_iff. right; right; right.
      cbn [num_mul]. rewrite Hp. cbn [num_mul]. rewrite Hv. exact H. }
  split; [| split].
  - split.
    + intros H. destruct Hdims as [Hd | (Hw' & Hh' & Hl')]; [tauto |].
      destruct (Hsmall Hw' Hh' Hl') as (p & v & Hp & Hv & _ & Hiff).
      right; right; right. exists p, v.
      split; [exact Hp |]. split; [exact Hv |]. apply Hiff. exact H.
    + intros [H | [H | [H | (p & v & Hp & Hv & H)]]];
        try (apply Hbig; tauto).
      apply isBulky_true_iff. right; right; right.
      cbn [num_mul]. rewrite Hp. cbn [num_mul]. rewrite Hv. exact H.
  - intros Hvol. destruct Hdims as [Hd | (Hw' & Hh' & Hl')];
      [apply Hbig; exact Hd |].
    destruct (Hsmall Hw' Hh' Hl') as (p & v & _ & _ & Herr & Hiff).
    apply Hiff. apply Qabs_Qlt_condition in Herr.
    assert (E30 : pow2 (-30) = (1 # 1073741824)%Q) by reflexivity.
    rewrite E30 in *. destruct Herr. lra.
  - intros Hw' Hh' Hl' Hvol.
    destruct (Hsmall Hw' Hh' Hl') as (p & v & _ & _ & Herr & Hiff).
    destruct (isBulky (Fin width) (Fin height) (Fin length)); [| reflexivity].
    exfalso. pose proof (proj1 Hiff eq_refl) as H.
    apply Qabs_Qlt_condition in Herr.
    assert (E30 : pow2 (-30) = (1 # 1073741824)%Q) by reflexivity.
    rewrite E30 in *. destruct Herr. lra.
Qed.

Lemma isBulky_iff_witness :
  isBulky 100%Z 100%Z 100%Z = true /\ isBulky 120%Z 100%Z 100%Z = true
  /\ isBulky 99%Z 100%Z 100%Z = false.
Proof.
  assert (H0 : forall z, (0 <= z)%Z -> (0 <= inject_Z z)%Q)
    by (intros z Hz; change 0%Q with (inject_Z 0); rewrite <- Zle_Qle;
        exact Hz).
  pose proof (isBulky_iff 100 100 100 (H0 100%Z ltac:(lia))
                (H0 100%Z ltac:(lia)) (H0 100%Z ltac:(lia)))
    as [[_ Hrounded] _].
  pose proof (isBulky_iff 120 100 100 (H0 120%Z ltac:(lia))
                (H0 100%Z ltac:(lia)) (H0 100%Z ltac:(lia)))
    as (_ & Habove & _).
  pose proof (isBulky_iff 99 100 100 (H0 99%Z ltac:(lia))
                (H0 100%Z ltac:(lia)) (H0 100%Z ltac:(lia)))
    as (_ & _ & Hbelow).
  split; [| split].
  - apply Hrounded. right; right; right.
    exists (5497558138880000 # 549755813888)%Q.
    exists (8589934592000000 # 8589934592)%Q. clear.
    split; [vm_compute; reflexivity |].
    split; [vm_compute; reflexivity |]. vm_compute. discriminate.
  - apply Habove. clear. vm_compute. discriminate.
  - apply Hbelow; clear; vm_compute; first [reflexivity | discriminate].
Defined.

(** C3 as stated, with the exact volume, fails: the binary64 numbers
    100 - 2^-46, 100 + 2^-46 and 100 are below 150 and their product is
    below 1000000, yet the code computes the volume 1000000 and answers
    true. *)
Lemma isBulky_exact_volume_counterexample :
  (round64 (100 - pow2 (-46)) = Fin (7036874417766399 # 70368744177664)
   /\ (7036874417766399 # 70368744177664 == 100 - pow2 (-46))%Q)
  /\ (round64 (100 + pow2 (-46)) = Fin (7036874417766401 # 70368744177664)
      /\ (7036874417766401 # 70368744177664 == 100 + pow2 (-46))%Q)
  /\ isBulky (Fin (100 - pow2 (-46))) (Fin (100 + pow2 (-46))) 100%Z = true
  /\ ~ ((150 <= 100 - pow2 (-46))%Q \/ (150 <= 100 + pow2 (-46))%Q
        \/ (150 <= 100)%Q
        \/ (1000000 <= (100 - pow2 (-46)) * (100 + pow2 (-46)) * 100)%Q).
Proof.
  split; [split; [vm_compute; reflexivity | vm_compute; reflexivity] |].
  split; [split; [vm_compute; reflexivity | vm_compute; reflexivity] |].
  split; [vm_compute; reflexivity |].
  intros [H | [H | [H | H]]]; vm_compute in H; apply H; reflexivity.
Qed.

(** ** Evaluation *)

(** C4. For every validly constructed engine and every structured record
    on which no condition throws: the stored rules are the elements of
    the constructor's array, one for each element and with that
    element's name, condition, result and priority, in ascending priority
    order, rules of equal priority in their array order; [evaluate] calls
    the conditions of a front part of that list, in order; it returns the
    result of the first rule whose
    condition yields true and calls no condition behind that rule.  In
    particular, of two rules of equal priority whose conditions both hold,
    the one that is earlier in the array is stored in front of the other,
    and the scan has ended by the time it has called the earlier one. *)
Theorem evaluate_first_match
  (rules0 : jsval) (e : RuleEngine) (packageData : jsdata) :
  new_RuleEngine rules0 = Normal e ->
  is_structured packageData = true ->
  (forall r msg, In r (rules e) -> condition r packageData <> Throws msg) ->
  exists elems validated,
    rules0 = VArr elems /\
    map_validate elems = Normal validated /\
    Forall2 rule_of elems validated /\
    stable_by_priority validated (rules e) /\
    (exists uncalled, rules e = evaluate_calls packageData e ++ uncalled) /\
    (forall pre r post,
        rules e = pre ++ r :: post ->
        (forall x, In x pre -> condition x packageData <> Returns true) ->
        condition r packageData = Returns true ->
        evaluate packageData e = (Normal (result r), e) /\
        evaluate_calls packageData e = pre ++ [r]) /\
    (forall a r1 b r2 c,
        validated = a ++ r1 :: b ++ r2 :: c ->
        same_priority r1 r2 ->
        condition r1 packageData = Returns true ->
        condition r2 packageData = Returns true ->
        exists pre mid post uncalled,
          rules e = pre ++ r1 :: mid ++ r2 :: post /\
          pre ++ [r1] = evaluate_calls packageData e ++ uncalled /\
          ((forall x, In x pre -> condition x packageData <> Returns true) ->
           evaluate packageData e = (Normal (result r1), e))).
Proof.
  intros Hnew Hs Hnothrow.
  destruct (new_RuleEngine_inv _ _ Hnew)
    as (elems & validated & -> & _ & Hv & Hrules).
  pose proof (map_validate_valid _ _ Hv) as Hvalid.
  assert (Hst : stable_by_priority validated (rules e)).
  { rewrite Hrules. apply Array_sort_stable.
    apply Forall_valid_finite. exact Hvalid. }
  exists elems, validated.
  unfold evaluate, evaluate_calls. rewrite Hs. cbn [negb].
  assert (Hfirst : forall pre r post,
             rules e = pre ++ r :: post ->
             (forall x, In x pre -> condition x packageData <> Returns true) ->
             condition r packageData = Returns true ->
             evaluate_loop (rules e) packageData
             = (pre ++ [r], Normal (result r))).
  { intros pre r post Hr Hpre Htrue. rewrite Hr.
    apply evaluate_loop_match; [| exact Htrue].
    apply Forall_forall. intros x Hx.
    destruct (condition x packageData) as [[|] | m] eqn:Ex.
    - exfalso. apply (Hpre x Hx). exact Ex.
    - reflexivity.
    - exfalso. apply (Hnothrow x m); [| exact Ex].
      rewrite Hr. apply in_or_app. left. exact Hx. }
  split; [reflexivity |]. split; [exact Hv |].
  split; [apply map_validate_rule_of; exact Hv |]. split; [exact Hst |].
  split; [| split].
  - destruct (evaluate_loop_cases (rules e) packageData)
      as [(pre & r & post & Hr & _ & _ & Hl)
         | [(pre & r & post & m & Hr & _ & _ & Hl) | (_ & Hl)]];
      rewrite Hl; cbn [fst].
    + exists post. rewrite Hr, <- app_assoc. reflexivity.
    + exists post. rewrite Hr, <- app_assoc. reflexivity.
    + exists []. rewrite app_nil_r. reflexivity.
  - intros pre r post Hr Hpre Htrue.
    rewrite (Hfirst pre r post Hr Hpre Htrue). split; reflexivity.
  - intros a r1 b r2 c Harr [H12 H21] Ht1 _.
    destruct Hst as (_ & _ & Hties).
    specialize (Hties (priority r1)). rewrite Harr in Hties.
    unfold with_priority in Hties.
    rewrite filter_app in Hties. cbn [filter] in Hties.
    rewrite filter_app in Hties. cbn [filter] in Hties.
    assert (Hrefl : num_le (priority r1) (priority r1))
      by (eapply num_le_trans; eassumption).
    rewrite (proj2 (num_geb_le _ _) Hrefl) in Hties.
    rewrite (proj2 (num_geb_le _ _) H12), (proj2 (num_geb_le _ _) H21)
      in Hties.
    cbn [andb] in Hties.
    apply filter_split in Hties.
    destruct Hties as (pre & back & Hr & _ & Hback).
    apply filter_split in Hback.
    destruct Hback as (mid & post & -> & _ & _).
    destruct (evaluate_loop_stops_by packageData pre r1
                (mid ++ r2 :: post) Ht1) as [uncalled Hstop].
    exists pre, mid, post, uncalled. rewrite Hr.
    split; [reflexivity |]. split; [exact Hstop |].
    intros Hpre. rewrite <- Hr.
    rewrite (Hfirst pre r1 (mid ++ r2 :: post) Hr Hpre Ht1). reflexivity.
Qed.

Lemma evaluate_first_match_witness :
  exists e,
    new_RuleEngine
      (VArr [rule_literal "rule-0" always_true "R0" 5%Z;
             rule_literal "rule-1" always_true "FIRST" 1%Z;
             rule_literal "rule-2" always_true "SECOND" 1%Z]) = Normal e /\
    map name (rules e) = ["rule-1"; "rule-2"; "rule-0"] /\
    evaluate testPackageData e = (Normal "FIRST", e).
Proof.
  set (zeroth := mkRule "rule-0" always_true "R0" 5%Z).
  set (first := mkRule "rule-1" always_true "FIRST" 1%Z).
  set (second := mkRule "rule-2" always_true "SECOND" 1%Z).
  exists (mkEngine [first; second; zeroth]).
  split; [reflexivity |]. split; [reflexivity |].
  destruct (evaluate_first_match
              (VArr [rule_literal "rule-0" always_true "R0" 5%Z;
                     rule_literal "rule-1" always_true "FIRST" 1%Z;
                     rule_literal "rule-2" always_true "SECOND" 1%Z])
              (mkEngine [first; second; zeroth]) testPackageData)
    as (elems & validated & Helems & Hv & Hof & _ & _ & _ & Htie).
  - reflexivity.
  - reflexivity.
  - intros r msg [<- | [<- | [<- | []]]]; discriminate.
  - injection Helems as <-. injection Hv as <-.
    destruct (Htie [zeroth] first [] second [])
      as (pre & mid & post & uncalled & Hrules & _ & Hwins).
    + reflexivity.
    + split; unfold priority_le, num_le, num_of_Z; cbn; unfold Qle; cbn; lia.
    + reflexivity.
    + reflexivity.
    + apply Hwins. destruct pre as [| x pre]; [intros x [] |].
      exfalso. cbn [rules app] in Hrules. injection Hrules as _ Hrest.
      destruct pre as [| y pre].
      * cbn [app] in Hrest. injection Hrest as Hsecond _.
        discriminate Hsecond.
      * cbn [app] in Hrest. injection Hrest as _ Hrest.
        destruct pre as [| z pre].
        -- cbn [app] in Hrest. injection Hrest as Hzero _.
           discriminate Hzero.
        -- destruct pre; discriminate.
Defined.

(** C6, at the inputs where the code departs from it.  A condition that
    throws [null] makes [evaluate] fail, not with the RuleExecutionError
    that names the rule, but with the TypeError that the catch block
    itself raises when it reads [error.message]; a condition that throws
    the string "boom" is reported with the text "undefined" in place of
    what it threw.  (A condition that throws an [Error] is wrapped with
    its message, and in every case the throwing call is the last of the
    scan.) *)
Theorem thrown_null_escapes_evaluate :
  (exists e,
      new_RuleEngine
        (VArr [rule_literal "null-rule" throws_null "NEVER" 1%Z;
               rule_literal "standard-packages" standard_condition STANDARD
                 PRIORITY_LOW]) = Normal e /\
      evaluate testPackageData e
      = (Throw (Error TypeError
                  "Cannot read properties of null (reading 'message')"), e)
      /\ map name (evaluate_calls testPackageData e) = ["null-rule"])
  /\ (exists e,
         new_RuleEngine
           (VArr [rule_literal "string-rule" throws_string "NEVER" 1%Z])
         = Normal e /\
         evaluate testPackageData e
         = (Throw (Error RuleExecutionError
                     ("Error evaluating rule " ++ dquote ++ "string-rule"
                      ++ dquote ++ ": undefined")), e))
  /\ (exists e,
         new_RuleEngine (VArr [errorRule]) = Normal e /\
         evaluate testPackageData e
         = (Throw (Error RuleExecutionError
                     ("Error evaluating rule " ++ dquote ++ "error-rule"
                      ++ dquote ++ ": Condition error")), e)).
Proof.
  split; [| split]; eexists; (split; [reflexivity |]);
    try split; reflexivity.
Qed.

(** C7. For every engine and every structured record on which no
    condition throws, [evaluate] fails with a NoMatchError if and only if
    no stored rule's condition returns true on the record; when it does
    fail so, the condition of every stored rule has been called. *)
Theorem evaluate_no_match_iff (packageData : jsdata) (e : RuleEngine) :
  is_structured packageData = true ->
  (forall r msg, In r (rules e) -> condition r packageData <> Throws msg) ->
  ((exists msg,
       fst (evaluate packageData e) = Throw (Error NoMatchError msg))
   <-> (forall r, In r (rules e) -> condition r packageData <> Returns true))
  /\ ((exists msg,
          fst (evaluate packageData e) = Throw (Error NoMatchError msg)) ->
      fst (evaluate packageData e)
      = Throw (Error NoMatchError "No matching rule found for package data")
      /\ evaluate_calls packageData e = rules e).
Proof.
  intros Hs Hnothrow. unfold evaluate, evaluate_calls. rewrite Hs.
  cbn [negb fst].
  destruct (evaluate_loop_cases (rules e) packageData)
    as [(pre & r0 & post & Hr & Hpre & Hr0 & Hl)
       | [(pre & r0 & post & m & Hr & Hpre & Hr0 & Hl) | (Hall & Hl)]];
    rewrite Hl; cbn [fst snd].
  - split; [split |].
    + intros [msg H]. discriminate.
    + intros H. exfalso. apply (H r0); [| exact Hr0].
      rewrite Hr. apply in_or_app. right. left. reflexivity.
    + intros [msg H]. discriminate.
  - exfalso. apply (Hnothrow r0 m); [| exact Hr0].
    rewrite Hr. apply in_or_app. right. left. reflexivity.
  - split; [split |].
    + intros _ r Hin Htrue. rewrite Forall_forall in Hall.
      rewrite (Hall r Hin) in Htrue. discriminate.
    + intros _. exists no_match_message. reflexivity.
    + intros _. split; reflexivity.
Qed.

Lemma evaluate_no_match_iff_witness :
  exists e,
    new_RuleEngine noMatchRules = Normal e /\
    fst (evaluate testPackageData e)
    = Throw (Error NoMatchError "No matching rule found for package data").
Proof.
  set (never := mkRule "never-match" always_false "NEVER" 1%Z).
  exists (mkEngine [never]). split; [reflexivity |].
  destruct (evaluate_no_match_iff testPackageData (mkEngine [never]))
    as [Hiff Hall].
  - reflexivity.
  - intros r msg [<- | []]. discriminate.
  - apply Hall. apply Hiff. intros r [<- | []]. discriminate.
Defined.

(** C9. For every engine and every input, a call of [evaluate], whether
    it returns a label or fails with any error, leaves the engine as it
    was: the same rules in the same order. *)
Theorem evaluate_keeps_engine (packageData : jsdata) (this : RuleEngine) :
  snd (evaluate packageData this) = this
  /\ rules (snd (evaluate packageData this)) = rules this.
Proof.
  unfold evaluate.
  destruct (negb (is_structured packageData)); split; reflexivity.
Qed.

(** ** Mutation *)

(** C5, at the inputs where the code departs from it.  The claim asks
    that every reachable state hold at least one rule and no two rules of
    one name.  The constructor lacks the duplicate-name check that
    [addRule] makes, so an array that repeats a name constructs an engine
    that holds the name twice; and [removeRule] lacks the emptiness check
    that the constructor makes, so removing the only rule of an engine
    succeeds and leaves it without rules. *)
Theorem reachable_states_break_invariant :
  (exists e,
      new_RuleEngine
        (VArr [rule_literal "test" always_true "A" 1%Z;
               rule_literal "test" always_false "B" 2%Z]) = Normal e /\
      reachable e /\
      map name (rules e) = ["test"; "test"] /\
      ~ names_unique (rules e))
  /\ (exists e0 e,
         new_RuleEngine
           (VArr [rule_literal "standard-packages" standard_condition
                    STANDARD PRIORITY_LOW]) = Normal e0 /\
         removeRule (VStr "standard-packages") e0 = (Normal tt, e) /\
         reachable e /\
         rules e = [] /\
         ~ (1 <= List.length (rules e))%nat).
Proof.
  split.
  - exists (mkEngine [mkRule "test" always_true "A" 1%Z;
                      mkRule "test" always_false "B" 2%Z]).
    split; [reflexivity |]. split; [| split; [reflexivity |]].
    + exists [mkRule "test" always_true "A" 1%Z;
              mkRule "test" always_false "B" 2%Z].
      apply (hist_new [rule_literal "test" always_true "A" 1%Z;
                       rule_literal "test" always_false "B" 2%Z]);
        reflexivity.
    + unfold names_unique. cbn [rules map name]. intros H.
      inversion H as [| ? ? Hnotin _]; subst. apply Hnotin. left.
      reflexivity.
  - assert (Hnew : new_RuleEngine
                     (VArr [rule_literal "standard-packages"
                              standard_condition STANDARD PRIORITY_LOW])
                   = Normal (mkEngine [standard_rule])) by reflexivity.
    assert (Hrem : removeRule (VStr "standard-packages")
                     (mkEngine [standard_rule])
                   = (Normal tt, mkEngine [])) by reflexivity.
    exists (mkEngine [standard_rule]), (mkEngine []).
    split; [exact Hnew |]. split; [exact Hrem |].
    split; [| split; [reflexivity | cbn; lia]].
    exists (filter (keeps_other_names "standard-packages") [standard_rule]).
    eapply hist_removeRule; [| exact Hrem].
    eapply hist_new; [exact Hnew | reflexivity].
Qed.

(** C8. For every engine and every rule that passes validation:
    [addRule] fails with the ConfigError that names the rule when a stored
    rule has the same name, and leaves the engine as it was; otherwise it
    succeeds and the new rule stands behind the stored rules that may
    precede it and in front of those of larger priority, the stored rules
    keeping their order, so that an [evaluate] on which the rules in front
    decline calls the new rule's condition next.  In particular a rule of
    priority 0 added to an engine whose rules all have positive priority
    becomes the first rule and is the first that [evaluate] tries. *)
Theorem addRule_duplicate_or_positioned
  (e : RuleEngine) (rule : jsval) (r : Rule) :
  reachable e ->
  _validateRule rule = Normal r ->
  ((exists x, In x (rules e) /\ name x = name r) ->
   addRule rule e
   = (Throw (Error ConfigError
               ("Rule with name " ++ dquote ++ name r ++ dquote
                ++ " already exists")), e))
  /\ (~ (exists x, In x (rules e) /\ name x = name r) ->
      exists pre post,
        rules e = pre ++ post /\
        addRule rule e = (Normal tt, mkEngine (pre ++ r :: post)) /\
        Forall (fun x => priority_le x r) pre /\
        Forall (fun y => num_ltb (priority r) (priority y) = true) post /\
        forall packageData,
          is_structured packageData = true ->
          Forall (fun x => condition x packageData = Returns false) pre ->
          exists rest,
            evaluate_calls packageData (mkEngine (pre ++ r :: post))
            = pre ++ r :: rest)
  /\ (~ (exists x, In x (rules e) /\ name x = name r) ->
      num_le (priority r) 0%Z ->
      Forall (fun x => num_ltb 0%Z (priority x) = true) (rules e) ->
      addRule rule e = (Normal tt, mkEngine (r :: rules e)) /\
      forall packageData,
        is_structured packageData = true ->
        exists rest,
          evaluate_calls packageData (mkEngine (r :: rules e)) = r :: rest).
Proof.
  intros Hreach Hr.
  destruct (reachable_valid_sorted e Hreach) as [Hvalid Hsorted].
  pose proof (validateRule_valid _ _ Hr) as Hrv.
  destruct (Array_sort_push (rules e) r Hsorted
              (Forall_valid_finite _ Hvalid) (valid_rule_finite _ Hrv))
    as (pre & post & Hsplit & Hsort & Hpre & Hpost).
  assert (Hcalls : forall packageData,
             is_structured packageData = true ->
             Forall (fun x => condition x packageData = Returns false) pre ->
             exists rest,
               evaluate_calls packageData (mkEngine (pre ++ r :: post))
               = pre ++ r :: rest).
  { intros d Hd Hdecl. unfold evaluate_calls. rewrite Hd. cbn [negb rules].
    apply evaluate_loop_calls_front. exact Hdecl. }
  assert (Hadd : ~ (exists x, In x (rules e) /\ name x = name r) ->
                 addRule rule e = (Normal tt, mkEngine (pre ++ r :: post))).
  { intros Hfresh. unfold addRule. rewrite Hr.
    destruct (existsb _ (rules e)) eqn:Ex.
    - exfalso. apply Hfresh. apply same_name_exists. exact Ex.
    - rewrite Hsort. reflexivity. }
  split; [| split].
  - intros Hdup. unfold addRule. rewrite Hr.
    rewrite (proj2 (same_name_exists r (rules e)) Hdup). reflexivity.
  - intros Hfresh. exists pre, post.
    repeat split; try assumption. apply Hadd. exact Hfresh.
  - intros Hfresh Hzero Hpos.
    assert (pre = []) as ->.
    { destruct pre as [| x pre]; [reflexivity | exfalso].
      inversion Hpre as [| ? ? Hx _]; subst.
      assert (Hin : In x (rules e)) by (rewrite Hsplit; left; reflexivity).
      rewrite Forall_forall in Hpos. specialize (Hpos x Hin).
      pose proof (num_le_trans _ _ _ Hx Hzero) as Hx0.
      unfold num_of_Z in *.
      destruct (priority x) as [| | | qx]; try discriminate;
        try contradiction.
      apply num_ltb_Fin in Hpos. cbn [num_le] in Hx0. lra. }
    cbn [app] in *. rewrite Hsplit. split; [apply Hadd; exact Hfresh |].
    intros d Hd. apply (Hcalls d Hd). constructor.
Qed.

Lemma addRule_duplicate_or_positioned_witness :
  addRule expressRule default_engine
  = (Normal tt,
     mkEngine (mkRule "express-packages" express_condition "EXPRESS" 0%Z
               :: rules default_engine))
  /\ addRule duplicateRule default_engine
     = (Throw (Error ConfigError
                 ("Rule with name " ++ dquote ++ "rejected-packages"
                  ++ dquote ++ " already exists")), default_engine).
Proof.
  assert (Hreach : reachable default_engine).
  { exists [rejected_rule; special_rule; standard_rule].
    apply (hist_new
             [rule_literal "rejected-packages" rejected_condition REJECTED
                PRIORITY_HIGH;
              rule_literal "special-packages" special_condition SPECIAL
                PRIORITY_MEDIUM;
              rule_literal "standard-packages" standard_condition STANDARD
                PRIORITY_LOW]); reflexivity. }
  split.
  - destruct (addRule_duplicate_or_positioned default_engine expressRule
                (mkRule "express-packages" express_condition "EXPRESS" 0%Z)
                Hreach eq_refl) as (_ & _ & Hfirst).
    apply Hfirst.
    + intros (x & [<- | [<- | [<- | []]]] & Hname); discriminate.
    + unfold num_le, num_of_Z. cbn. unfold Qle. cbn. lia.
    + repeat constructor.
  - destruct (addRule_duplicate_or_positioned default_engine duplicateRule
                (mkRule "rejected-packages" always_true "DUPLICATE" 5%Z)
                Hreach eq_refl) as (Hdup & _).
    apply Hdup. exists rejected_rule. split; [left |]; reflexivity.
Defined.

(** C10. A failing mutation changes nothing: if [addRule] fails (the rule
    is invalid or its name is taken) or [removeRule] fails (the name is
    not a non-blank string or no rule has it), the engine holds the same
    rules in the same order as before the call. *)
Theorem failed_mutation_keeps_rules
  (arg : jsval) (e e' : RuleEngine) (err : error) :
  addRule arg e = (Throw err, e') \/ removeRule arg e = (Throw err, e') ->
  rules e' = rules e.
Proof.
  intros [Hadd | Hrem].
  - unfold addRule, config_error in Hadd.
    destruct (_validateRule arg) as [r |].
    + destruct (existsb _ (rules e)); [| discriminate].
      injection Hadd as _ <-. reflexivity.
    + injection Hadd as _ <-. reflexivity.
  - unfold removeRule, config_error in Hrem.
    destruct arg as [| | | | rule_name | | |];
      try (injection Hrem as _ <-; reflexivity).
    destruct (String.eqb (trim rule_name) EmptyString).
    + injection Hrem as _ <-. reflexivity.
    + cbn [rules] in Hrem.
      destruct (Nat.eqb _ _) eqn:Elen; [| discriminate].
      injection Hrem as _ <-. cbn [rules].
      apply filter_length_id. apply Nat.eqb_eq. exact Elen.
Qed.

Lemma failed_mutation_keeps_rules_witness :
  removeRule (VStr "non-existent") default_engine
  = (Throw (Error ConfigError
              ("Rule with name " ++ dquote ++ "non-existent" ++ dquote
               ++ " not found")), default_engine)
  /\ rules default_engine = rules default_engine.
Proof.
  split; [reflexivity |].
  apply (failed_mutation_keeps_rules (VStr "non-existent") default_engine
           default_engine
           (Error ConfigError
              ("Rule with name " ++ dquote ++ "non-existent" ++ dquote
               ++ " not found"))).
  right. reflexivity.
Defined.

(* ================================================================== *)
(** * Further properties of the code *)
(* ================================================================== *)

(** ** [trim] and validation *)

Lemma trimStart_empty_iff (s : string) :
  trimStart s = EmptyString <-> blank s = true.
Proof.
  unfold blank. induction s as [| c s IH]; cbn; [tauto |].
  destruct (is_white c); cbn.
  - exact IH.
  - split; discriminate.
Qed.

Lemma trimStart_blank (s : string) : blank (trimStart s) = blank s.
Proof.
  unfold blank. induction s as [| c s IH]; cbn; [reflexivity |].
  destruct (is_white c) eqn:Ec; cbn.
  - exact IH.
  - rewrite Ec. reflexivity.
Qed.

Lemma reverse_blank (s : string) : blank (reverse s) = blank s.
Proof.
  unfold blank, reverse. rewrite list_ascii_of_string_of_list_ascii.
  destruct (forallb is_white (list_ascii_of_string s)) eqn:E.
  - rewrite forallb_forall in *. intros c Hc. apply E.
    apply in_rev. exact Hc.
  - destruct (forallb is_white (rev (list_ascii_of_string s))) eqn:E';
      [| reflexivity].
    rewrite <- E. symmetry. rewrite forallb_forall in *.
    intros c Hc. apply E'. apply in_rev. rewrite rev_involutive. exact Hc.
Qed.

Lemma reverse_empty_iff (s : string) :
  reverse s = EmptyString <-> s = EmptyString.
Proof.
  unfold reverse. split.
  - intros H. destruct s as [| c s]; [reflexivity |].
    apply (f_equal list_ascii_of_string) in H.
    rewrite list_ascii_of_string_of_list_ascii in H. cbn in H.
    destruct (rev (list_ascii_of_string s)); discriminate.
  - intros ->. reflexivity.
Qed.

(** [trim] returns the empty string exactly on the strings made of white
    space only (the empty string among them). *)
Theorem trim_empty_iff_blank (s : string) :
  trim s = EmptyString <-> blank s = true.
Proof.
  unfold trim. rewrite reverse_empty_iff, trimStart_empty_iff.
  rewrite reverse_blank, trimStart_blank. tauto.
Qed.

Lemma trim_eqb_blank (s : string) :
  String.eqb (trim s) EmptyString = blank s.
Proof.
  destruct (blank s) eqn:E.
  - apply String.eqb_eq. apply trim_empty_iff_blank. exact E.
  - apply String.eqb_neq. intros H. apply trim_empty_iff_blank in H.
    congruence.
Qed.

Lemma first_missing_none (rule : jsval) :
  first_missing requiredProperties rule = None <->
  has_property "name" rule = true /\ has_property "condition" rule = true /\
  has_property "result" rule = true /\ has_property "priority" rule = true.
Proof.
  unfold requiredProperties. cbn [first_missing].
  destruct (has_property "name" rule), (has_property "condition" rule),
    (has_property "result" rule), (has_property "priority" rule); cbn;
    intuition discriminate.
Qed.

(** X1. [_validateRule] accepts exactly the objects that have the four
    properties with a non-blank string [name], a function [condition], a
    non-blank string [result] and a finite, non-negative number
    [priority]; what it returns carries those four property values
    unchanged. *)
Theorem validateRule_accepts_iff (rule : jsval) (r : Rule) :
  _validateRule rule = Normal r <->
  exists props q,
    rule = VObj props /\
    assoc "name" props = Some (VStr (name r)) /\
    blank (name r) = false /\
    assoc "condition" props = Some (VFun (condition r)) /\
    assoc "result" props = Some (VStr (result r)) /\
    blank (result r) = false /\
    assoc "priority" props = Some (VNum (Fin q)) /\
    priority r = Fin q /\ (0 <= q)%Q.
Proof.
  split.
  - unfold _validateRule, config_error.
    destruct (negb (is_object rule)) eqn:Eo; [discriminate |].
    destruct (first_missing requiredProperties rule) eqn:Em; [discriminate |].
    apply first_missing_none in Em.
    destruct rule as [| | | | | | elems | props];
      try (cbn in Eo; discriminate);
      try (destruct Em as [Em _]; cbn in Em; discriminate).
    destruct Em as (Hn & Hc & Hr & Hp). cbn [has_property get] in *.
    destruct (assoc "name" props) as [vn |] eqn:An; [| discriminate].
    destruct (assoc "condition" props) as [vc |] eqn:Ac; [| discriminate].
    destruct (assoc "result" props) as [vr |] eqn:Ar; [| discriminate].
    destruct (assoc "priority" props) as [vp |] eqn:Ap; [| discriminate].
    destruct vn as [| | | | n | | |]; try discriminate.
    rewrite trim_eqb_blank. destruct (blank n) eqn:Bn; [discriminate |].
    destruct vc as [| | | | | f | |]; try discriminate.
    destruct vr as [| | | | res | | |]; try discriminate.
    rewrite trim_eqb_blank. destruct (blank res) eqn:Br; [discriminate |].
    destruct vp as [| | | p | | | |]; try discriminate.
    destruct (num_ltb p 0%Z || negb (isFinite p)) eqn:Ep; [discriminate |].
    intros [= <-]. cbn [name condition result priority].
    apply orb_false_elim in Ep. destruct Ep as [Hneg Hfin].
    destruct p as [| | | q]; try discriminate.
    exists props, q. repeat split; try assumption; try reflexivity.
    destruct (Qlt_le_dec q 0) as [Hlt | Hle]; [| exact Hle].
    apply (num_ltb_Fin q 0) in Hlt. unfold num_of_Z in Hneg.
    change (inject_Z 0) with 0%Q in Hneg. congruence.
  - intros (props & q & -> & Hn & Bn & Hc & Hr & Br & Hp & Hq & Hle).
    unfold _validateRule, requiredProperties.
    cbn [is_object truthyV typeof jstype_eqb andb negb first_missing
           has_property get].
    rewrite Hn, Hc, Hr, Hp. cbn [negb].
    rewrite !trim_eqb_blank, Bn, Br.
    assert (Hneg : num_ltb (Fin q) 0%Z = false).
    { destruct (num_ltb (Fin q) 0%Z) eqn:E; [| reflexivity].
      unfold num_of_Z in E. apply num_ltb_Fin in E.
      change (inject_Z 0) with 0%Q in E. lra. }
    rewrite Hneg. cbn [isFinite negb orb].
    destruct r as [n c res p]. cbn [name condition result priority] in *.
    rewrite Hq. reflexivity.
Qed.

(** X2. A rule object that lacks required properties is rejected with the
    ConfigError that names the first missing one, in the order name,
    condition, result, priority, whatever its other properties hold. *)
Theorem validateRule_names_first_missing
  (rule : jsval) (before after : list string) (prop : string) :
  is_object rule = true ->
  requiredProperties = before ++ prop :: after ->
  Forall (fun k => has_property k rule = true) before ->
  has_property prop rule = false ->
  _validateRule rule
  = Throw (Error ConfigError
             ("Rule is missing required property: " ++ prop)).
Proof.
  intros Ho Hsplit Hbefore Hmiss. unfold _validateRule. rewrite Ho.
  cbn [negb]. rewrite Hsplit.
  assert (Hfm : first_missing (before ++ prop :: after) rule = Some prop).
  { clear Hsplit. induction Hbefore as [| k before Hk _ IH];
      cbn [app first_missing].
    - rewrite Hmiss. reflexivity.
    - rewrite Hk. cbn [negb]. exact IH. }
  rewrite Hfm. reflexivity.
Qed.

Lemma validateRule_names_first_missing_witness :
  _validateRule (VObj [("name", VStr "incomplete")])
  = Throw (Error ConfigError "Rule is missing required property: condition").
Proof.
  apply (validateRule_names_first_missing
           (VObj [("name", VStr "incomplete")]) ["name"] ["result"; "priority"]
           "condition").
  - reflexivity.
  - reflexivity.
  - repeat constructor.
  - reflexivity.
Defined.

(** Everything [_validateRule] throws is a ConfigError. *)
Lemma validateRule_throws_config (rule : jsval) (err : error) :
  _validateRule rule = Throw err -> kind err = ConfigError.
Proof.
  unfold _validateRule, config_error.
  destruct (negb (is_object rule)); [intros [= <-]; reflexivity |].
  destruct (first_missing requiredProperties rule);
    [intros [= <-]; reflexivity |].
  destruct (get rule "name"); try (intros [= <-]; reflexivity).
  destruct (String.eqb _ _); [intros [= <-]; reflexivity |].
  destruct (get rule "condition"); try (intros [= <-]; reflexivity).
  destruct (get rule "result"); try (intros [= <-]; reflexivity).
  destruct (String.eqb _ _); [intros [= <-]; reflexivity |].
  destruct (get rule "priority"); try (intros [= <-]; reflexivity).
  destruct (_ || _); [intros [= <-]; reflexivity | discriminate].
Qed.

(** ** The constructor *)

Lemma map_validate_throw_iff (elems : list jsval) (err : error) :
  map_validate elems = Throw err <->
  exists good bad rest,
    elems = good ++ bad :: rest /\
    Forall (fun v => exists r, _validateRule v = Normal r) good /\
    _validateRule bad = Throw err.
Proof.
  split.
  - induction elems as [| v elems IH]; cbn [map_validate]; [discriminate |].
    destruct (_validateRule v) as [r |] eqn:Ev.
    + destruct (map_validate elems) as [rs |]; [discriminate |].
      intros [= <-]. destruct (IH eq_refl) as (good & bad & rest & -> & Hg & Hb).
      exists (v :: good), bad, rest. repeat split; [| exact Hb].
      constructor; [exists r; exact Ev | exact Hg].
    + intros [= <-]. exists [], v, elems. repeat split; [constructor | exact Ev].
  - intros (good & bad & rest & -> & Hg & Hb).
    induction Hg as [| v good [r Hv] _ IH]; cbn [app map_validate].
    + rewrite Hb. reflexivity.
    + rewrite Hv, IH. reflexivity.
Qed.

(** X3. The constructor fails in exactly three ways: its argument is not
    an array, it is the empty array, or some element fails validation; in
    the last case the error is the one of the first invalid element,
    whatever follows it. *)
Theorem constructor_fails_iff (rules0 : jsval) (err : error) :
  new_RuleEngine rules0 = Throw err <->
  ((forall elems, rules0 <> VArr elems) /\
   err = Error ConfigError "Rules must be an array")
  \/ (rules0 = VArr [] /\
      err = Error ConfigError "Rules array cannot be empty")
  \/ (exists good bad rest,
         rules0 = VArr (good ++ bad :: rest) /\
         Forall (fun v => exists r, _validateRule v = Normal r) good /\
         _validateRule bad = Throw err).
Proof.
  unfold new_RuleEngine, config_error. split.
  - destruct rules0 as [| | | | | | elems |];
      try (intros [= <-]; left; split; [intros ? ?; discriminate |];
           reflexivity).
    destruct elems as [| v elems]; cbn [List.length Nat.eqb].
    + intros [= <-]. right; left. split; reflexivity.
    + destruct (map_validate (v :: elems)) as [rs |] eqn:Em; [discriminate |].
      intros [= <-]. right; right.
      apply map_validate_throw_iff in Em.
      destruct Em as (good & bad & rest & Hel & Hg & Hb).
      exists good, bad, rest. rewrite Hel. repeat split; assumption.
  - intros [[Hna ->] | [[-> ->] | (good & bad & rest & -> & Hg & Hb)]].
    + destruct rules0; try reflexivity. exfalso. eapply Hna. reflexivity.
    + reflexivity.
    + assert (Hm : map_validate (good ++ bad :: rest) = Throw err).
      { apply map_validate_throw_iff. exists good, bad, rest.
        repeat split; assumption. }
      rewrite Hm. destruct good; reflexivity.
Qed.

Lemma map_validate_names (elems : list jsval) (validated : list Rule) :
  map_validate elems = Normal validated ->
  map literal_name elems = map (fun r => VStr (name r)) validated.
Proof.
  revert validated. induction elems as [| v elems IH]; intros validated.
  - intros [= <-]. reflexivity.
  - cbn [map_validate].
    destruct (_validateRule v) as [r |] eqn:Ev; [| discriminate].
    destruct (map_validate elems) as [rs |]; [| discriminate].
    intros [= <-]. cbn [map]. f_equal; [| apply IH; reflexivity].
    destruct (validateRule_rule_of _ _ Ev) as (Hn & _).
    unfold literal_name. exact Hn.
Qed.

(** X4. A successful construction neither drops nor merges rules: the
    engine holds as many rules as the array has elements, and their names
    are the names in the array, each as often as it occurs there.  An
    array that repeats a name therefore yields an engine that repeats
    it. *)
Theorem constructor_keeps_every_rule (elems : list jsval) (e : RuleEngine) :
  new_RuleEngine (VArr elems) = Normal e ->
  List.length (rules e) = List.length elems /\
  Permutation (map literal_name elems)
    (map (fun r => VStr (name r)) (rules e)).
Proof.
  intros Hnew. apply new_RuleEngine_inv in Hnew.
  destruct Hnew as (elems' & validated & [= <-] & _ & Hv & ->).
  pose proof (map_validate_names _ _ Hv) as Hnames.
  pose proof (Array_sort_perm by_priority validated) as Hperm.
  split.
  - rewrite <- (Permutation_length Hperm).
    rewrite <- (length_map literal_name elems), Hnames.
    symmetry. apply length_map.
  - rewrite Hnames. apply Permutation_map. exact Hperm.
Qed.

Lemma constructor_keeps_every_rule_witness :
  exists e,
    new_RuleEngine
      (VArr [rule_literal "test" always_true "A" 1%Z;
             rule_literal "test" always_false "B" 2%Z]) = Normal e /\
    List.length (rules e) = 2%nat /\
    Permutation [VStr "test"; VStr "test"]
      (map (fun r => VStr (name r)) (rules e)).
Proof.
  eexists. split; [reflexivity |].
  apply (constructor_keeps_every_rule
           [rule_literal "test" always_true "A" 1%Z;
            rule_literal "test" always_false "B" 2%Z]).
  reflexivity.
Defined.

(** A sorted list is determined by its rules of each priority. *)
Lemma with_priority_self (x : Rule) :
  finite_priority x ->
  num_geb (priority x) (priority x) && num_geb (priority x) (priority x)
  = true.
Proof.
  intros [q Hq]. rewrite Hq.
  assert (H : num_geb (Fin q) (Fin q) = true)
    by (apply num_geb_le; cbn; lra).
  rewrite H. reflexivity.
Qed.

Lemma with_priority_same (p : number) (x : Rule) :
  num_geb (priority x) p && num_geb p (priority x) = true ->
  num_le (priority x) p /\ num_le p (priority x).
Proof.
  intros H. apply andb_prop in H. destruct H as [H1 H2].
  apply num_geb_le in H1, H2. split; assumption.
Qed.

Lemma same_priority_filter (x y : Rule) :
  same_priority x y ->
  num_geb (priority y) (priority x) && num_geb (priority x) (priority y)
  = true.
Proof.
  intros [Hxy Hyx]. unfold priority_le in *.
  rewrite (proj2 (num_geb_le _ _) Hxy), (proj2 (num_geb_le _ _) Hyx).
  reflexivity.
Qed.

Lemma with_priority_In (p : number) (x : Rule) (l front back : list Rule) :
  with_priority p l = front ++ x :: back -> In x l.
Proof.
  intros H. assert (Hin : In x (with_priority p l))
    by (rewrite H; apply in_or_app; right; left; reflexivity).
  unfold with_priority in Hin. apply filter_In in Hin. apply Hin.
Qed.

Lemma stable_sorted_unique (l l' : list Rule) :
  Forall finite_priority l -> Forall finite_priority l' ->
  StronglySorted priority_le l -> StronglySorted priority_le l' ->
  (forall p, with_priority p l = with_priority p l') ->
  l = l'.
Proof.
  intros Hf. revert l'.
  induction Hf as [| x t Hx Hft IH]; intros l' Hf' Hs Hs' Heq.
  - destruct l' as [| y t']; [reflexivity | exfalso].
    inversion Hf' as [| ? ? Hy _]; subst.
    specialize (Heq (priority y)). unfold with_priority in Heq.
    cbn [filter] in Heq. rewrite (with_priority_self y Hy) in Heq.
    discriminate.
  - destruct l' as [| y t'].
    { exfalso. specialize (Heq (priority x)). unfold with_priority in Heq.
      cbn [filter] in Heq. rewrite (with_priority_self x Hx) in Heq.
      discriminate. }
    inversion Hf' as [| ? ? Hy Hft']; subst.
    inversion Hs as [| ? ? Hst Hxt]; subst.
    inversion Hs' as [| ? ? Hst' Hyt']; subst.
    assert (Hxy : x = y).
    { pose proof (Heq (priority x)) as Hpx.
      pose proof (Heq (priority y)) as Hpy.
      unfold with_priority in Hpx, Hpy. cbn [filter] in Hpx, Hpy.
      rewrite (with_priority_self x Hx) in Hpx.
      rewrite (with_priority_self y Hy) in Hpy.
      destruct (num_geb (priority y) (priority x)
                && num_geb (priority x) (priority y)) eqn:Fy.
      - injection Hpx as Hpx _. exact Hpx.
      - exfalso.
        assert (Hyx : priority_le y x).
        { rewrite Forall_forall in Hyt'. apply Hyt'.
          apply (with_priority_In (priority x) x t' [] _ (eq_sym Hpx)). }
        destruct (num_geb (priority x) (priority y)
                  && num_geb (priority y) (priority x)) eqn:Fx.
        + rewrite andb_comm in Fx. congruence.
        + assert (Hxy : priority_le x y).
          { rewrite Forall_forall in Hxt. apply Hxt.
            apply (with_priority_In (priority y) y t [] _ Hpy). }
          rewrite (same_priority_filter x y (conj Hxy Hyx)) in Fy.
          discriminate. }
    subst y. f_equal. apply IH; try assumption.
    intros p. specialize (Heq p). unfold with_priority in *.
    cbn [filter] in Heq.
    destruct (num_geb (priority x) p && num_geb p (priority x));
      [injection Heq as Heq |]; exact Heq.
Qed.

Lemma distinct_priorities_at_most_one (p : number) (l : list Rule) :
  distinct_priorities l -> (List.length (with_priority p l) <= 1)%nat.
Proof.
  unfold distinct_priorities, with_priority.
  induction 1 as [| x l Hx _ IH]; cbn [filter]; [cbn; lia |].
  destruct (num_geb (priority x) p && num_geb p (priority x)) eqn:Fx;
    [| exact IH].
  assert (Hnone : filter (fun r => num_geb (priority r) p
                                   && num_geb p (priority r)) l = []).
  { destruct (filter _ l) as [| y rest] eqn:Ef; [reflexivity | exfalso].
    assert (Hin : In y (filter (fun r => num_geb (priority r) p
                                         && num_geb p (priority r)) l))
      by (rewrite Ef; left; reflexivity).
    apply filter_In in Hin. destruct Hin as [Hin Fy].
    rewrite Forall_forall in Hx. apply (Hx y Hin).
    apply with_priority_same in Fx, Fy.
    destruct Fx as [Fx1 Fx2], Fy as [Fy1 Fy2].
    split; unfold priority_le; eapply num_le_trans; eassumption. }
  rewrite Hnone. cbn. lia.
Qed.

(** X5. The order of the array does not matter when all priorities
    differ: two arrays whose validated rules are the same up to order, no
    two of equal priority, construct engines with the same rule list. *)
Theorem constructor_order_independent
  (elems1 elems2 : list jsval) (validated1 validated2 : list Rule)
  (e1 e2 : RuleEngine) :
  new_RuleEngine (VArr elems1) = Normal e1 ->
  new_RuleEngine (VArr elems2) = Normal e2 ->
  map_validate elems1 = Normal validated1 ->
  map_validate elems2 = Normal validated2 ->
  Permutation validated1 validated2 ->
  distinct_priorities validated1 ->
  e1 = e2.
Proof.
  intros Hn1 Hn2 Hv1 Hv2 Hperm Hdist.
  apply new_RuleEngine_inv in Hn1, Hn2.
  destruct Hn1 as (el1 & va1 & [= <-] & _ & Hv1' & Hr1).
  destruct Hn2 as (el2 & va2 & [= <-] & _ & Hv2' & Hr2).
  rewrite Hv1 in Hv1'. injection Hv1' as <-.
  rewrite Hv2 in Hv2'. injection Hv2' as <-.
  pose proof (Forall_valid_finite _ (map_validate_valid _ _ Hv1)) as Hf1.
  pose proof (Forall_valid_finite _ (map_validate_valid _ _ Hv2)) as Hf2.
  destruct e1 as [rs1], e2 as [rs2]. cbn [rules] in *. subst rs1 rs2.
  f_equal. apply stable_sorted_unique.
  - apply (Permutation_Forall (Array_sort_perm by_priority _)). exact Hf1.
  - apply (Permutation_Forall (Array_sort_perm by_priority _)). exact Hf2.
  - apply Array_sort_sorted. exact Hf1.
  - apply Array_sort_sorted. exact Hf2.
  - intros p. rewrite !with_priority_sort.
    pose proof (distinct_priorities_at_most_one p _ Hdist) as Hlen.
    assert (Hp : Permutation (with_priority p validated1)
                   (with_priority p validated2))
      by (apply Permutation_filter_both; exact Hperm).
    destruct (with_priority p validated1) as [| a [| b rest]].
    + apply Permutation_nil in Hp. symmetry. exact Hp.
    + apply Permutation_length_1_inv in Hp. symmetry. exact Hp.
    + cbn in Hlen. lia.
Qed.

Lemma constructor_order_independent_witness :
  exists e1 e2,
    new_RuleEngine CLASSIFICATION_RULES = Normal e1 /\
    new_RuleEngine
      (VArr [rule_literal "standard-packages" standard_condition STANDARD
               PRIORITY_LOW;
             rule_literal "rejected-packages" rejected_condition REJECTED
               PRIORITY_HIGH;
             rule_literal "special-packages" special_condition SPECIAL
               PRIORITY_MEDIUM])
    = Normal e2 /\
    e1 = e2.
Proof.
  exists default_engine, default_engine.
  split; [reflexivity |]. split; [reflexivity |].
  apply (constructor_order_independent
           [rule_literal "rejected-packages" rejected_condition REJECTED
              PRIORITY_HIGH;
            rule_literal "special-packages" special_condition SPECIAL
              PRIORITY_MEDIUM;
            rule_literal "standard-packages" standard_condition STANDARD
              PRIORITY_LOW]
           [rule_literal "standard-packages" standard_condition STANDARD
              PRIORITY_LOW;
            rule_literal "rejected-packages" rejected_condition REJECTED
              PRIORITY_HIGH;
            rule_literal "special-packages" special_condition SPECIAL
              PRIORITY_MEDIUM]
           [rejected_rule; special_rule; standard_rule]
           [standard_rule; rejected_rule; special_rule]).
  - reflexivity.
  - reflexivity.
  - reflexivity.
  - reflexivity.
  - apply Permutation_sym. apply (Permutation_cons_app [_; _] []).
    apply Permutation_refl.
  - unfold distinct_priorities. repeat constructor;
      intros [H1 H2]; unfold priority_le, num_le in *; cbn in *;
      unfold Qle in *; cbn in *; lia.
Defined.

(** ** [evaluate] *)

Lemma is_structured_iff (d : jsdata) :
  is_structured d = false <->
  (forall props, d <> DObj props) /\ (forall elems, d <> DArr elems).
Proof.
  unfold is_structured.
  destruct d as [| | b | n | s | elems | props];
    cbn [truthy typeof_data jstype_eqb andb]; rewrite ?andb_false_r;
    try (split; [intros _; split; intros ? ?; discriminate | reflexivity]).
  - split; [discriminate |]. intros [_ H]. exfalso. eapply H. reflexivity.
  - split; [discriminate |]. intros [H _]. exfalso. eapply H. reflexivity.
Qed.

(** The catch block throws a RuleExecutionError or lets a TypeError
    through. *)
Lemma rethrow_kind (r : Rule) (error : thrown) :
  exists err,
    rethrow r error = Throw err /\
    (kind err = RuleExecutionError \/ kind err = TypeError).
Proof.
  unfold rethrow. destruct (message_text error); eexists;
    (split; [reflexivity |]); [left | right]; reflexivity.
Qed.

Lemma rethrow_not_normal (r : Rule) (error : thrown) (label : string) :
  rethrow r error <> Normal label.
Proof. unfold rethrow. destruct (message_text error); discriminate. Qed.

Lemma rethrow_not_no_match (r : Rule) (error : thrown) (m : string) :
  rethrow r error <> Throw (Error NoMatchError m).
Proof. unfold rethrow. destruct (message_text error); discriminate. Qed.

Lemma evaluate_loop_kind (rs : list Rule) (d : jsdata) (err : error) :
  snd (evaluate_loop rs d) = Throw err -> kind err <> InputError.
Proof.
  destruct (evaluate_loop_cases rs d)
    as [(pre & r & post & _ & _ & _ & Hl)
       | [(pre & r & post & m & _ & _ & _ & Hl) | (_ & Hl)]];
    rewrite Hl; cbn [snd].
  - discriminate.
  - destruct (rethrow_kind r m) as (err' & -> & [K | K]);
      intros [= <-]; rewrite K; discriminate.
  - intros [= <-]; discriminate.
Qed.

(** X6. [evaluate] fails with an InputError exactly when its argument is
    neither an object nor an array (undefined, null, a boolean, a number,
    a string); it then has called no condition, and the stored rules play
    no part. *)
Theorem evaluate_input_error_iff (packageData : jsdata) (e : RuleEngine) :
  ((exists m, fst (evaluate packageData e) = Throw (Error InputError m))
   <-> (forall props, packageData <> DObj props) /\
       (forall elems, packageData <> DArr elems))
  /\ ((exists m, fst (evaluate packageData e) = Throw (Error InputError m))
      -> evaluate packageData e
         = (Throw (Error InputError "Package data must be an object"), e)
         /\ evaluate_calls packageData e = []).
Proof.
  rewrite <- is_structured_iff. unfold evaluate, evaluate_calls.
  destruct (is_structured packageData); cbn [negb fst].
  - split; [split |].
    + intros [m H]. apply evaluate_loop_kind in H. exfalso. apply H.
      reflexivity.
    + discriminate.
    + intros [m H]. apply evaluate_loop_kind in H. exfalso. apply H.
      reflexivity.
  - split; [split |].
    + reflexivity.
    + intros _. eexists. reflexivity.
    + intros _. split; reflexivity.
Qed.

(** X7. Whenever [evaluate] returns a label, the label is the [result] of
    a stored rule whose condition returned true on the record, every rule
    stored in front of it was called and returned false, and nothing
    behind it was called.  No assumption on throwing conditions is
    needed. *)
Theorem evaluate_label_is_first_match
  (packageData : jsdata) (e : RuleEngine) (label : string) :
  fst (evaluate packageData e) = Normal label ->
  exists pre r post,
    rules e = pre ++ r :: post /\
    Forall (fun x => condition x packageData = Returns false) pre /\
    condition r packageData = Returns true /\
    label = result r /\
    evaluate_calls packageData e = pre ++ [r].
Proof.
  unfold evaluate, evaluate_calls.
  destruct (negb (is_structured packageData)); [discriminate |].
  cbn [fst].
  destruct (evaluate_loop_cases (rules e) packageData)
    as [(pre & r & post & Hr & Hpre & Ht & Hl)
       | [(pre & r & post & m & _ & _ & _ & Hl) | (_ & Hl)]];
    rewrite Hl; cbn [fst snd]; try discriminate;
    try (intros H; exfalso; exact (rethrow_not_normal r m label H)).
  intros [= <-]. exists pre, r, post. repeat split; assumption.
Qed.

Lemma evaluate_label_is_first_match_witness :
  exists pre r post,
    rules default_engine = pre ++ r :: post /\
    Forall (fun x => condition x testPackageData = Returns false) pre /\
    condition r testPackageData = Returns true /\
    STANDARD = result r /\
    evaluate_calls testPackageData default_engine = pre ++ [r].
Proof.
  apply (evaluate_label_is_first_match testPackageData default_engine
           STANDARD).
  reflexivity.
Defined.

(** X8. [evaluate] fails with a NoMatchError exactly when the record is an
    object or array and every stored condition, called in turn, returned
    false; in particular an engine emptied by [removeRule] fails so on
    every such record. *)
Theorem evaluate_no_match_exactly (packageData : jsdata) (e : RuleEngine) :
  ((exists m, fst (evaluate packageData e) = Throw (Error NoMatchError m))
   <-> is_structured packageData = true /\
       Forall (fun r => condition r packageData = Returns false) (rules e))
  /\ (rules e = [] -> is_structured packageData = true ->
      evaluate packageData e
      = (Throw (Error NoMatchError "No matching rule found for package data"),
         e)).
Proof.
  unfold evaluate. split.
  - destruct (is_structured packageData); cbn [negb fst].
    + destruct (evaluate_loop_cases (rules e) packageData)
        as [(pre & r & post & Hr & Hpre & Ht & Hl)
           | [(pre & r & post & m & Hr & Hpre & Ht & Hl) | (Hall & Hl)]];
        rewrite Hl; cbn [snd].
      * split; [intros [m H]; discriminate |].
        intros [_ Hall]. rewrite Hr in Hall. apply Forall_app in Hall.
        destruct Hall as [_ Hall]. inversion Hall; subst. congruence.
      * split;
          [intros [m' H]; exfalso; exact (rethrow_not_no_match r m m' H) |].
        intros [_ Hall]. rewrite Hr in Hall. apply Forall_app in Hall.
        destruct Hall as [_ Hall]. inversion Hall; subst. congruence.
      * split; [intros _; split; [reflexivity | exact Hall] |].
        intros _. eexists. reflexivity.
    + split; [intros [m H]; discriminate | intros [H _]; discriminate].
  - intros -> ->. reflexivity.
Qed.

(** X9. The default engine classifies every object or array and never
    fails on one: the label is REJECTED when the record's [bulky] and
    [heavy] properties are both truthy, SPECIAL when one of them is,
    STANDARD otherwise (also when the properties are missing). *)
Theorem default_engine_total (packageData : jsdata) :
  is_structured packageData = true ->
  evaluate packageData default_engine
  = (Normal (if flag packageData "bulky" && flag packageData "heavy"
             then REJECTED
             else if flag packageData "bulky" || flag packageData "heavy"
                  then SPECIAL else STANDARD),
     default_engine).
Proof.
  intros Hs. unfold evaluate. rewrite Hs.
  cbn [negb rules default_engine evaluate_loop condition rejected_rule
         special_rule standard_rule result].
  unfold rejected_condition, special_condition, standard_condition, flag.
  destruct packageData as [| | b | n | s | elems | props];
    unfold is_structured in Hs;
    cbn [truthy typeof_data jstype_eqb andb] in Hs;
    rewrite ?andb_false_r in Hs; try discriminate; cbn [member].
  - reflexivity.
  - unfold js_and, js_or.
    destruct (assoc "bulky" props) as [vb |],
      (assoc "heavy" props) as [vh |]; cbn [truthy];
      try destruct (truthy vb) eqn:Eb; try destruct (truthy vh) eqn:Eh;
      rewrite ?Eb, ?Eh; cbn [truthy andb orb snd]; rewrite ?Eb, ?Eh;
      reflexivity.
Qed.

Lemma default_engine_total_witness :
  evaluate (DObj []) default_engine = (Normal STANDARD, default_engine)
  /\ evaluate (DObj [("bulky", DBool true); ("heavy", DBool false)])
       default_engine
     = (Normal SPECIAL, default_engine).
Proof.
  split.
  - apply (default_engine_total (DObj [])). reflexivity.
  - apply (default_engine_total
             (DObj [("bulky", DBool true); ("heavy", DBool false)])).
    reflexivity.
Defined.

Lemma evaluate_loop_snoc (rs : list Rule) (r : Rule) (d : jsdata) :
  snd (evaluate_loop (rs ++ [r]) d)
  = match snd (evaluate_loop rs d) with
    | Throw (Error NoMatchError _) => snd (evaluate_loop [r] d)
    | c => c
    end.
Proof.
  induction rs as [| x rs IH]; cbn [app].
  - cbn [evaluate_loop snd]. reflexivity.
  - cbn [evaluate_loop]. destruct (condition x d) as [[|] | m].
    + reflexivity.
    + destruct (evaluate_loop (rs ++ [r]) d) as [c1 o1].
      destruct (evaluate_loop rs d) as [c2 o2]. cbn [snd] in *. exact IH.
    + cbn [snd]. unfold rethrow. destruct (message_text m); reflexivity.
Qed.

(** X10. A rule whose priority is not below any stored priority is stored
    behind all stored rules, also behind those of equal priority, and
    only decides the records that matched nothing before: every
    [evaluate] that did not end in NoMatchError completes as it did, and
    one that did now completes as the new rule's condition says. *)
Theorem addRule_last_keeps_outcomes
  (e e' : RuleEngine) (rule : jsval) (r : Rule) (packageData : jsdata) :
  reachable e ->
  _validateRule rule = Normal r ->
  addRule rule e = (Normal tt, e') ->
  Forall (fun x => priority_le x r) (rules e) ->
  rules e' = rules e ++ [r] /\
  ((forall m,
       fst (evaluate packageData e) <> Throw (Error NoMatchError m)) ->
   fst (evaluate packageData e') = fst (evaluate packageData e)) /\
  (forall m,
      fst (evaluate packageData e) = Throw (Error NoMatchError m) ->
      fst (evaluate packageData e')
      = match condition r packageData with
        | Returns true => Normal (result r)
        | Returns false => Throw (Error NoMatchError no_match_message)
        | Throws error => rethrow r error
        end).
Proof.
  intros Hreach Hr Hadd Hle.
  destruct (reachable_valid_sorted e Hreach) as [Hvalid Hsorted].
  pose proof (validateRule_valid _ _ Hr) as Hrv.
  destruct (Array_sort_push (rules e) r Hsorted
              (Forall_valid_finite _ Hvalid) (valid_rule_finite _ Hrv))
    as (pre & post & Hsplit & Hsort & _ & Hpost).
  assert (post = []) as ->.
  { destruct post as [| y post]; [reflexivity | exfalso].
    inversion Hpost as [| ? ? Hy _]; subst.
    rewrite Forall_forall in Hle.
    assert (Hyr : priority_le y r).
    { apply Hle. rewrite Hsplit. apply in_or_app. right. left. reflexivity. }
    destruct (valid_rule_finite _ Hrv) as [qr Hqr].
    unfold priority_le in Hyr. rewrite Hqr in *.
    destruct (priority y) as [| | | qy]; try discriminate;
      try contradiction.
    apply num_ltb_Fin in Hy. cbn [num_le] in Hyr. lra. }
  rewrite app_nil_r in Hsplit. subst pre.
  apply addRule_inv in Hadd. destruct Hadd as (r' & Hr' & _ & He').
  rewrite Hr in Hr'. injection Hr' as <-. rewrite Hsort in He'.
  split; [exact He' |].
  unfold evaluate. destruct (negb (is_structured packageData)); cbn [fst].
  - split; [reflexivity | discriminate].
  - rewrite He', evaluate_loop_snoc.
    destruct (snd (evaluate_loop (rules e) packageData))
      as [label | [[] m]]; split; try reflexivity; try discriminate.
    + intros H. exfalso. apply (H m). reflexivity.
    + intros m' _. cbn [evaluate_loop].
      destruct (condition r packageData) as [[|] | msg]; reflexivity.
Qed.

Lemma addRule_last_keeps_outcomes_witness :
  exists e',
    addRule (rule_literal "fallback" always_true "FALLBACK" 3%Z)
      default_engine = (Normal tt, e') /\
    rules e'
    = rules default_engine ++ [mkRule "fallback" always_true "FALLBACK" 3%Z].
Proof.
  eexists. split; [reflexivity |].
  apply (addRule_last_keeps_outcomes default_engine _
           (rule_literal "fallback" always_true "FALLBACK" 3%Z)
           (mkRule "fallback" always_true "FALLBACK" 3%Z) testPackageData).
  - exists [rejected_rule; special_rule; standard_rule].
    apply (hist_new
             [rule_literal "rejected-packages" rejected_condition REJECTED
                PRIORITY_HIGH;
              rule_literal "special-packages" special_condition SPECIAL
                PRIORITY_MEDIUM;
              rule_literal "standard-packages" standard_condition STANDARD
                PRIORITY_LOW]); reflexivity.
  - reflexivity.
  - reflexivity.
  - repeat constructor; unfold priority_le, num_le; cbn; unfold Qle; cbn;
      lia.
Defined.

(** ** [addRule] and [removeRule], composed *)

Lemma filter_none_id {A : Type} (f : A -> bool) (l : list A) :
  (forall x, In x l -> f x = true) -> filter f l = l.
Proof.
  induction l as [| x l IH]; intros H; [reflexivity |].
  cbn [filter]. rewrite (H x (or_introl eq_refl)). f_equal.
  apply IH. intros y Hy. apply H. right. exact Hy.
Qed.

Lemma filter_drops_length {A : Type} (f : A -> bool) (l : list A) (x : A) :
  In x l -> f x = false -> (List.length (filter f l) < List.length l)%nat.
Proof.
  induction l as [| y l IH]; intros Hin Hx; [contradiction |].
  cbn [filter List.length]. destruct Hin as [-> | Hin].
  - rewrite Hx. pose proof (filter_length_le f l). lia.
  - specialize (IH Hin Hx). destruct (f y); cbn [List.length]; lia.
Qed.

Lemma removeRule_named (n : string) (e : RuleEngine) :
  blank n = false ->
  removeRule (VStr n) e
  = let kept := filter (keeps_other_names n) (rules e) in
    if Nat.eqb (List.length kept) (List.length (rules e))
    then (Throw (Error ConfigError (not_found_message n)), mkEngine kept)
    else (Normal tt, mkEngine kept).
Proof.
  intros Hb. unfold removeRule. rewrite trim_eqb_blank, Hb. reflexivity.
Qed.

(** X11. [removeRule] with a name that is not blank succeeds exactly when
    a stored rule has that name.  It then removes every rule of that name
    and no other, the remaining rules keeping their order, and the list
    gets shorter; otherwise it fails with the ConfigError that the name
    was not found, on an unchanged engine. *)
Theorem removeRule_succeeds_iff (rule_name : string) (e : RuleEngine) :
  blank rule_name = false ->
  ((exists x, In x (rules e) /\ name x = rule_name) ->
   exists e',
     removeRule (VStr rule_name) e = (Normal tt, e') /\
     rules e' = filter (keeps_other_names rule_name) (rules e) /\
     (forall x, In x (rules e') <-> In x (rules e) /\ name x <> rule_name) /\
     (List.length (rules e') < List.length (rules e))%nat)
  /\ (~ (exists x, In x (rules e) /\ name x = rule_name) ->
      removeRule (VStr rule_name) e
      = (Throw (Error ConfigError
                  ("Rule with name " ++ dquote ++ rule_name ++ dquote
                   ++ " not found")), e)).
Proof.
  intros Hb. rewrite (removeRule_named rule_name e Hb). cbv zeta. split.
  - intros (x & Hin & Hx).
    assert (Hlt : (List.length (filter (keeps_other_names rule_name)
                                  (rules e))
                   < List.length (rules e))%nat).
    { apply (filter_drops_length _ _ x Hin). unfold keeps_other_names.
      rewrite (proj2 (String.eqb_eq _ _) Hx). reflexivity. }
    destruct (Nat.eqb _ _) eqn:E; [apply Nat.eqb_eq in E; lia |].
    eexists. split; [reflexivity |]. cbn [rules].
    split; [reflexivity |]. split; [| exact Hlt].
    intros y. rewrite filter_In. unfold keeps_other_names.
    rewrite negb_true_iff, String.eqb_neq. tauto.
  - intros Hnone.
    assert (Hid : filter (keeps_other_names rule_name) (rules e) = rules e).
    { apply filter_none_id. intros y Hy. unfold keeps_other_names.
      apply negb_true_iff. apply String.eqb_neq. intros Hname.
      apply Hnone. exists y. split; assumption. }
    rewrite Hid, Nat.eqb_refl. destruct e. reflexivity.
Qed.

Lemma removeRule_succeeds_iff_witness :
  exists e',
    removeRule (VStr "special-packages") default_engine = (Normal tt, e') /\
    rules e' = [rejected_rule; standard_rule].
Proof.
  destruct (removeRule_succeeds_iff "special-packages" default_engine)
    as [Hyes _]; [reflexivity |].
  destruct Hyes as (e' & Hrem & Hrules & _).
  - exists special_rule. split; [right; left |]; reflexivity.
  - exists e'. split; [exact Hrem |]. rewrite Hrules. reflexivity.
Defined.

(** X12. [removeRule] rejects every argument that is not a string and
    every string made of white space only with the ConfigError about the
    rule name, before looking at the rules. *)
Theorem removeRule_rejects_bad_name (ruleName : jsval) (e : RuleEngine) :
  (forall s, ruleName = VStr s -> blank s = true) ->
  removeRule ruleName e
  = (Throw (Error ConfigError "Rule name must be a non-empty string"), e).
Proof.
  intros H. unfold removeRule, config_error.
  destruct ruleName as [| | | | s | | |]; try reflexivity.
  rewrite trim_eqb_blank, (H s eq_refl). reflexivity.
Qed.

Lemma removeRule_rejects_bad_name_witness :
  removeRule (VStr "   ") default_engine
  = (Throw (Error ConfigError "Rule name must be a non-empty string"),
     default_engine)
  /\ removeRule VNull default_engine
     = (Throw (Error ConfigError "Rule name must be a non-empty string"),
        default_engine).
Proof.
  split.
  - apply (removeRule_rejects_bad_name (VStr "   ") default_engine).
    intros s [= <-]. reflexivity.
  - apply (removeRule_rejects_bad_name VNull default_engine).
    intros s H. discriminate.
Defined.

(** X13. Removing the same name twice: after a successful [removeRule]
    no stored rule has the name, so a second [removeRule] of it fails
    with the not-found error and changes nothing. *)
Theorem removeRule_twice_fails (rule_name : string) (e e' : RuleEngine) :
  removeRule (VStr rule_name) e = (Normal tt, e') ->
  removeRule (VStr rule_name) e'
  = (Throw (Error ConfigError (not_found_message rule_name)), e').
Proof.
  intros H.
  assert (Hb : blank rule_name = false).
  { unfold removeRule, config_error in H. rewrite trim_eqb_blank in H.
    destruct (blank rule_name); [discriminate | reflexivity]. }
  apply removeRule_inv in H. destruct H as (n & [= <-] & Hrules).
  destruct (removeRule_succeeds_iff rule_name e' Hb) as [_ Hno].
  apply Hno. intros (x & Hin & Hx). rewrite Hrules in Hin.
  apply filter_In in Hin. destruct Hin as [_ Hk].
  apply negb_true_iff, String.eqb_neq in Hk. contradiction.
Qed.

Lemma removeRule_twice_fails_witness :
  removeRule (VStr "special-packages")
    (mkEngine [rejected_rule; standard_rule])
  = (Throw (Error ConfigError (not_found_message "special-packages")),
     mkEngine [rejected_rule; standard_rule]).
Proof.
  apply (removeRule_twice_fails "special-packages" default_engine).
  reflexivity.
Defined.

(** X14. A successful [addRule] adds exactly the validated rule: the new
    list is the old one with that rule put in, one longer; and adding the
    same rule again fails with the duplicate-name error. *)
Theorem addRule_adds_once (rule : jsval) (e e' : RuleEngine) :
  addRule rule e = (Normal tt, e') ->
  exists r,
    _validateRule rule = Normal r /\
    Permutation (r :: rules e) (rules e') /\
    List.length (rules e') = S (List.length (rules e)) /\
    addRule rule e'
    = (Throw (Error ConfigError (already_exists_message (name r))), e').
Proof.
  intros H. apply addRule_inv in H. destruct H as (r & Hr & _ & Hrules).
  assert (Hperm : Permutation (r :: rules e) (rules e')).
  { rewrite Hrules. eapply perm_trans; [| apply Array_sort_perm].
    apply Permutation_cons_append. }
  exists r. split; [exact Hr |]. split; [exact Hperm |]. split.
  - rewrite <- (Permutation_length Hperm). reflexivity.
  - unfold addRule. rewrite Hr.
    assert (Hdup : exists x, In x (rules e') /\ name x = name r).
    { exists r. split; [| reflexivity].
      apply (Permutation_in _ Hperm). left. reflexivity. }
    rewrite (proj2 (same_name_exists r (rules e')) Hdup). reflexivity.
Qed.

Lemma addRule_adds_once_witness :
  exists e',
    addRule expressRule default_engine = (Normal tt, e') /\
    List.length (rules e') = 4%nat /\
    addRule expressRule e'
    = (Throw (Error ConfigError (already_exists_message "express-packages")),
       e').
Proof.
  set (added := mkEngine
                  (mkRule "express-packages" express_condition "EXPRESS" 0%Z
                   :: rules default_engine)).
  exists added. split; [reflexivity |].
  destruct (addRule_adds_once expressRule default_engine added eq_refl)
    as (r & Hr & _ & Hlen & Hagain).
  injection Hr as <-. split; [exact Hlen | exact Hagain].
Defined.

(** X15. A successful [addRule] followed by [removeRule] of the added
    name restores the rule list: [removeRule] succeeds and leaves the
    rules that were stored before, in their order. *)
Theorem addRule_then_removeRule
  (rule : jsval) (r : Rule) (e e1 : RuleEngine) :
  reachable e ->
  _validateRule rule = Normal r ->
  addRule rule e = (Normal tt, e1) ->
  exists e2,
    removeRule (VStr (name r)) e1 = (Normal tt, e2) /\
    rules e2 = rules e.
Proof.
  intros Hreach Hr Hadd.
  destruct (reachable_valid_sorted e Hreach) as [Hvalid Hsorted].
  pose proof (validateRule_valid _ _ Hr) as Hrv.
  destruct (Array_sort_push (rules e) r Hsorted
              (Forall_valid_finite _ Hvalid) (valid_rule_finite _ Hrv))
    as (pre & post & Hsplit & Hsort & _ & _).
  apply addRule_inv in Hadd. destruct Hadd as (r' & Hr' & Hfresh & He1).
  rewrite Hr in Hr'. injection Hr' as <-. rewrite Hsort in He1.
  assert (Hb : blank (name r) = false).
  { destruct Hrv as (Hn & _). destruct (blank (name r)) eqn:E;
      [| reflexivity].
    exfalso. apply Hn. apply trim_empty_iff_blank. exact E. }
  destruct (removeRule_succeeds_iff (name r) e1 Hb) as [Hyes _].
  destruct Hyes as (e2 & Hrem & Hrules & _).
  { exists r. split; [| reflexivity]. rewrite He1.
    apply in_or_app. right. left. reflexivity. }
  exists e2. split; [exact Hrem |].
  rewrite Hrules, He1, filter_app. cbn [filter].
  unfold keeps_other_names at 2. rewrite String.eqb_refl. cbn [negb].
  rewrite <- filter_app, <- Hsplit.
  apply filter_none_id. intros x Hx. unfold keeps_other_names.
  apply negb_true_iff, String.eqb_neq. intros Hname.
  apply Hfresh. exists x. split; assumption.
Qed.

Lemma addRule_then_removeRule_witness :
  exists e1 e2,
    addRule expressRule default_engine = (Normal tt, e1) /\
    removeRule (VStr "express-packages") e1 = (Normal tt, e2) /\
    rules e2 = rules default_engine.
Proof.
  exists (mkEngine
            (mkRule "express-packages" express_condition "EXPRESS" 0%Z
             :: rules default_engine)).
  destruct (addRule_then_removeRule expressRule
              (mkRule "express-packages" express_condition "EXPRESS" 0%Z)
              default_engine
              (mkEngine
                 (mkRule "express-packages" express_condition "EXPRESS" 0%Z
                  :: rules default_engine))) as (e2 & Hrem & Hrules).
  - exists [rejected_rule; special_rule; standard_rule].
    apply (hist_new
             [rule_literal "rejected-packages" rejected_condition REJECTED
                PRIORITY_HIGH;
              rule_literal "special-packages" special_condition SPECIAL
                PRIORITY_MEDIUM;
              rule_literal "standard-packages" standard_condition STANDARD
                PRIORITY_LOW]); reflexivity.
  - reflexivity.
  - reflexivity.
  - exists e2. split; [reflexivity |]. split; [exact Hrem | exact Hrules].
Defined.

(** ** The classifier *)

Lemma Qmult_le_mono_nonneg (a b c d : Q) :
  (0 <= a)%Q -> (0 <= c)%Q -> (a <= b)%Q -> (c <= d)%Q ->
  (a * c <= b * d)%Q.
Proof.
  intros Ha Hc Hab Hcd. apply Qle_trans with (b * c)%Q.
  - apply Qmult_le_compat_r; assumption.
  - rewrite (Qmult_comm b c), (Qmult_comm b d).
    apply Qmult_le_compat_r; [assumption | lra].
Qed.

(** The product of the code is monotone on non-negative numbers: the
    exact product is, and so is the rounding. *)
Lemma num_mul_mono (x x' : number) (l l' : Q) :
  num_le (Fin 0) x -> num_le x x' -> (0 <= l)%Q -> (l <= l')%Q ->
  num_le 1000000%Z (num_mul x (Fin l)) ->
  num_le 1000000%Z (num_mul x' (Fin l')).
Proof.
  intros H0 Hxx Hl Hll Hv.
  assert (Hlpos : (0 < l)%Q).
  { destruct (Qlt_le_dec 0 l) as [H | H]; [exact H | exfalso].
    assert (El : (l == 0)%Q) by lra.
    destruct x as [| | | p]; cbn [num_le num_mul] in *; try contradiction.
    - unfold Qsign in Hv. rewrite (proj1 (Qeq_alt _ _) El) in Hv. exact Hv.
    - assert (Ep : (p * l == 0)%Q) by (rewrite El; ring).
      unfold round64, Qsign in Hv. rewrite (proj1 (Qeq_alt _ _) Ep) in Hv.
      unfold num_of_Z in Hv. cbn [num_le] in Hv.
      change (inject_Z 1000000) with 1000000%Q in Hv. lra. }
  assert (Hl'pos : (Qsign l' = Gt)).
  { unfold Qsign. apply (proj1 (Qgt_alt _ _)). lra. }
  destruct x as [| | | p], x' as [| | | p']; cbn [num_le] in *;
    try contradiction; cbn [num_mul]; rewrite ?Hl'pos; try exact I.
  eapply num_le_trans; [exact Hv |]. cbn [num_mul].
  apply round64_mono.
  - apply Qmult_le_0_compat; assumption.
  - apply Qmult_le_mono_nonneg; assumption.
Qed.

(** X16. For finite, non-negative dimensions [isBulky] is monotone: a
    package that is bulky stays bulky when no dimension shrinks; and
    [isHeavy] is monotone in the mass. *)
Theorem classifier_monotone (w h l w' h' l' m m' : Q) :
  (0 <= w)%Q -> (0 <= h)%Q -> (0 <= l)%Q ->
  (w <= w')%Q -> (h <= h')%Q -> (l <= l')%Q -> (m <= m')%Q ->
  (isBulky (Fin w) (Fin h) (Fin l) = true ->
   isBulky (Fin w') (Fin h') (Fin l') = true)
  /\ (isHeavy (Fin m) = true -> isHeavy (Fin m') = true).
Proof.
  intros Hw Hh Hl Hww Hhh Hll Hmm. split.
  - rewrite !isBulky_true_iff.
    intros [H | [H | [H | H]]].
    + left. unfold num_of_Z in *. cbn [num_le] in *. lra.
    + right; left. unfold num_of_Z in *. cbn [num_le] in *. lra.
    + right; right; left. unfold num_of_Z in *. cbn [num_le] in *. lra.
    + right; right; right. cbn [num_mul] in *.
      apply (num_mul_mono (round64 (w * h)) (round64 (w' * h')) l l');
        try assumption.
      * change (Fin 0) with (round64 0).
        apply round64_mono; [apply Qle_refl |].
        apply Qmult_le_0_compat; assumption.
      * apply round64_mono; [apply Qmult_le_0_compat; assumption |].
        apply Qmult_le_mono_nonneg; assumption.
  - unfold isHeavy, MASS_THRESHOLD. rewrite !num_geb_le.
    unfold num_of_Z. cbn [num_le]. lra.
Qed.

Lemma classifier_monotone_witness :
  (isBulky 100%Z 100%Z 100%Z = true -> isBulky 100%Z 120%Z 100%Z = true)
  /\ (isHeavy 20%Z = true -> isHeavy 25%Z = true).
Proof.
  apply (classifier_monotone 100 100 100 100 120 100 20 25);
    unfold Qle; cbn; lia.
Defined.

(** X17. The label of the decision-matrix [sort] tells the class back:
    REJECTED exactly for bulky and heavy, STANDARD exactly for neither,
    SPECIAL exactly when the two predicates differ. *)
Theorem sort_label_decides (width height length mass : number) :
  (DecisionMatrix.sort width height length mass = REJECTED <->
   isBulky width height length = true /\ isHeavy mass = true)
  /\ (DecisionMatrix.sort width height length mass = STANDARD <->
      isBulky width height length = false /\ isHeavy mass = false)
  /\ (DecisionMatrix.sort width height length mass = SPECIAL <->
      isBulky width height length <> isHeavy mass).
Proof.
  unfold DecisionMatrix.sort.
  destruct (isBulky width height length), (isHeavy mass); cbn [andb orb];
    repeat split; intros; try discriminate; try reflexivity;
    try (intros; discriminate);
    try match goal with
        | H : _ /\ _ |- _ => destruct H; discriminate
        | H : ?x <> ?x |- _ => exfalso; apply H; reflexivity
        end.
Qed.

(** X18. The classifier does not validate its numbers.  A NaN mass is
    never heavy, so no package with it is REJECTED; a NaN width gives a
    NaN volume, so such a package is bulky only through its height or
    length. *)
Theorem classifier_on_NaN (width height length : number) :
  DecisionMatrix.sort width height length NaN <> REJECTED
  /\ (isBulky NaN height length = true <->
      num_le 150%Z height \/ num_le 150%Z length).
Proof.
  split.
  - unfold DecisionMatrix.sort. change (isHeavy NaN) with false.
    destruct (isBulky width height length); discriminate.
  - rewrite isBulky_true_iff. unfold num_of_Z. cbn [num_mul num_le]. tauto.
Qed.

(** ** Rules that decline a record *)

Lemma evaluate_loop_skip (pre post : list Rule) (r : Rule) (d : jsdata) :
  condition r d = Returns false ->
  snd (evaluate_loop (pre ++ r :: post) d)
  = snd (evaluate_loop (pre ++ post) d).
Proof.
  intros Hr. induction pre as [| x pre IH]; cbn [app evaluate_loop].
  - rewrite Hr. destruct (evaluate_loop post d). reflexivity.
  - destruct (condition x d) as [[|] | m]; try reflexivity.
    destruct (evaluate_loop (pre ++ r :: post) d),
      (evaluate_loop (pre ++ post) d). cbn [snd] in *. exact IH.
Qed.

Lemma evaluate_loop_filter (f : Rule -> bool) (rs : list Rule) (d : jsdata) :
  (forall x, In x rs -> f x = false -> condition x d = Returns false) ->
  snd (evaluate_loop (filter f rs) d) = snd (evaluate_loop rs d).
Proof.
  induction rs as [| x rs IH]; intros H; [reflexivity |].
  assert (IH' : snd (evaluate_loop (filter f rs) d)
                = snd (evaluate_loop rs d)).
  { apply IH. intros y Hy. apply H. right. exact Hy. }
  cbn [filter]. destruct (f x) eqn:Fx.
  - cbn [evaluate_loop]. destruct (condition x d) as [[|] | m];
      try reflexivity.
    destruct (evaluate_loop (filter f rs) d), (evaluate_loop rs d).
    cbn [snd] in *. exact IH'.
  - cbn [evaluate_loop]. rewrite (H x (or_introl eq_refl) Fx).
    destruct (evaluate_loop rs d). cbn [snd] in *. exact IH'.
Qed.

(** X19. Adding a rule never changes the outcome of [evaluate] on a
    record the new rule's condition returns false for, wherever the rule
    is placed. *)
Theorem addRule_declining_keeps_outcome
  (e e' : RuleEngine) (rule : jsval) (r : Rule) (packageData : jsdata) :
  reachable e ->
  _validateRule rule = Normal r ->
  addRule rule e = (Normal tt, e') ->
  condition r packageData = Returns false ->
  fst (evaluate packageData e') = fst (evaluate packageData e).
Proof.
  intros Hreach Hr Hadd Hdecl.
  destruct (reachable_valid_sorted e Hreach) as [Hvalid Hsorted].
  pose proof (validateRule_valid _ _ Hr) as Hrv.
  destruct (Array_sort_push (rules e) r Hsorted
              (Forall_valid_finite _ Hvalid) (valid_rule_finite _ Hrv))
    as (pre & post & Hsplit & Hsort & _ & _).
  apply addRule_inv in Hadd. destruct Hadd as (r' & Hr' & _ & He').
  rewrite Hr in Hr'. injection Hr' as <-. rewrite Hsort in He'.
  unfold evaluate. destruct (negb (is_structured packageData));
    [reflexivity |].
  cbn [fst]. rewrite He', Hsplit. apply evaluate_loop_skip. exact Hdecl.
Qed.

Lemma addRule_declining_keeps_outcome_witness :
  fst (evaluate testPackageData
         (mkEngine
            (mkRule "express-packages" express_condition "EXPRESS" 0%Z
             :: rules default_engine)))
  = fst (evaluate testPackageData default_engine).
Proof.
  apply (addRule_declining_keeps_outcome default_engine _ expressRule
           (mkRule "express-packages" express_condition "EXPRESS" 0%Z)).
  - exists [rejected_rule; special_rule; standard_rule].
    apply (hist_new
             [rule_literal "rejected-packages" rejected_condition REJECTED
                PRIORITY_HIGH;
              rule_literal "special-packages" special_condition SPECIAL
                PRIORITY_MEDIUM;
              rule_literal "standard-packages" standard_condition STANDARD
                PRIORITY_LOW]); reflexivity.
  - reflexivity.
  - reflexivity.
  - reflexivity.
Defined.

(** X20. Removing a name never changes the outcome of [evaluate] on a
    record that every rule of that name returns false for. *)
Theorem removeRule_declining_keeps_outcome
  (e e' : RuleEngine) (rule_name : string) (packageData : jsdata) :
  removeRule (VStr rule_name) e = (Normal tt, e') ->
  (forall x, In x (rules e) -> name x = rule_name ->
             condition x packageData = Returns false) ->
  fst (evaluate packageData e') = fst (evaluate packageData e).
Proof.
  intros Hrem Hdecl. apply removeRule_inv in Hrem.
  destruct Hrem as (n & [= <-] & Hrules).
  unfold evaluate. destruct (negb (is_structured packageData));
    [reflexivity |].
  cbn [fst]. rewrite Hrules. apply evaluate_loop_filter.
  intros x Hin Hx. apply Hdecl; [exact Hin |].
  apply negb_false_iff in Hx. apply String.eqb_eq. exact Hx.
Qed.

Lemma removeRule_declining_keeps_outcome_witness :
  fst (evaluate testPackageData (mkEngine [rejected_rule; standard_rule]))
  = fst (evaluate testPackageData default_engine).
Proof.
  apply (removeRule_declining_keeps_outcome default_engine _
           "special-packages").
  - reflexivity.
  - intros x [<- | [<- | [<- | []]]] Hname; try discriminate. reflexivity.
Defined.

(** X21. On a reachable engine a label returned by [evaluate] is never
    blank: it is the validated [result] of a stored rule. *)
Theorem evaluate_label_not_blank
  (e : RuleEngine) (packageData : jsdata) (label : string) :
  reachable e ->
  fst (evaluate packageData e) = Normal label ->
  blank label = false /\ exists r, In r (rules e) /\ result r = label.
Proof.
  intros Hreach. destruct (reachable_valid_sorted e Hreach) as [Hvalid _].
  unfold evaluate.
  destruct (negb (is_structured packageData)); [discriminate |].
  cbn [fst].
  destruct (evaluate_loop_cases (rules e) packageData)
    as [(pre & r & post & Hr & _ & _ & Hl)
       | [(pre & r & post & m & _ & _ & _ & Hl) | (_ & Hl)]];
    rewrite Hl; cbn [snd]; try discriminate;
    try (intros H; exfalso; exact (rethrow_not_normal r m label H)).
  intros [= <-].
  assert (Hin : In r (rules e))
    by (rewrite Hr; apply in_or_app; right; left; reflexivity).
  split; [| exists r; split; [exact Hin | reflexivity]].
  rewrite Forall_forall in Hvalid.
  destruct (Hvalid r Hin) as (_ & Hres & _).
  destruct (blank (result r)) eqn:E; [| reflexivity].
  exfalso. apply Hres. apply trim_empty_iff_blank. exact E.
Qed.

Lemma evaluate_label_not_blank_witness :
  blank STANDARD = false /\
  exists r, In r (rules default_engine) /\ result r = STANDARD.
Proof.
  apply (evaluate_label_not_blank default_engine testPackageData STANDARD).
  - exists [rejected_rule; special_rule; standard_rule].
    apply (hist_new
             [rule_literal "rejected-packages" rejected_condition REJECTED
                PRIORITY_HIGH;
              rule_literal "special-packages" special_condition SPECIAL
                PRIORITY_MEDIUM;
              rule_literal "standard-packages" standard_condition STANDARD
                PRIORITY_LOW]); reflexivity.
  - reflexivity.
Defined.

(** ** What holds of every reachable state, and of every throw *)



(** X23. If [evaluate] calls the condition of a rule and that call
    throws, the throwing call is the last call of the scan, whatever was
    thrown: no condition of a later rule is invoked.  When an [Error] is
    thrown, [evaluate] fails with the RuleExecutionError whose message is
    the rule's name in quotes followed by the message of that error; when
    a value without a [message] is thrown, with the same error and the
    text "undefined"; when [null] or [undefined] is thrown, with a
    TypeError. *)
Theorem condition_throw_aborts
  (packageData : jsdata) (e : RuleEngine) (r : Rule) (error : thrown) :
  In r (evaluate_calls packageData e) ->
  condition r packageData = Throws error ->
  (exists pre post,
      rules e = pre ++ r :: post /\
      evaluate_calls packageData e = pre ++ [r])
  /\ (forall m,
         error = ThrownError m ->
         evaluate packageData e
         = (Throw (Error RuleExecutionError
                     ("Error evaluating rule " ++ dquote ++ name r ++ dquote
                      ++ ": " ++ m)), e))
  /\ (forall v,
         error = ThrownOther v ->
         evaluate packageData e
         = (Throw (Error RuleExecutionError
                     ("Error evaluating rule " ++ dquote ++ name r ++ dquote
                      ++ ": undefined")), e))
  /\ (error = ThrownNull \/ error = ThrownUndefined ->
      exists m, evaluate packageData e = (Throw (Error TypeError m), e)).
Proof.
  unfold evaluate, evaluate_calls.
  destruct (negb (is_structured packageData)); [contradiction |].
  intros Hin Hthrow.
  assert (Hnot : forall l,
             Forall (fun x => condition x packageData = Returns false) l ->
             ~ In r l).
  { intros l Hl Hrl. rewrite Forall_forall in Hl.
    rewrite (Hl r Hrl) in Hthrow. discriminate. }
  destruct (evaluate_loop_cases (rules e) packageData)
    as [(pre & r0 & post & Hr & Hpre & Hr0 & Hl)
       | [(pre & r0 & post & m & Hr & Hpre & Hr0 & Hl) | (Hall & Hl)]];
    rewrite Hl in *; cbn [fst snd] in *.
  - exfalso. apply in_app_or in Hin. destruct Hin as [Hin | [-> | []]].
    + exact (Hnot pre Hpre Hin).
    + congruence.
  - apply in_app_or in Hin. destruct Hin as [Hin | [-> | []]].
    + exfalso. exact (Hnot pre Hpre Hin).
    + assert (m = error) as -> by congruence.
      split; [exists pre, post; split; [exact Hr | reflexivity] |].
      split; [| split].
      * intros m ->. reflexivity.
      * intros v ->. reflexivity.
      * intros [-> | ->]; eexists; reflexivity.
  - exfalso. exact (Hnot _ Hall Hin).
Qed.

Lemma condition_throw_aborts_witness :
  exists e,
    new_RuleEngine
      (VArr [errorRule;
             rule_literal "standard-packages" standard_condition STANDARD
               PRIORITY_LOW])
    = Normal e /\
    evaluate testPackageData e
    = (Throw (Error RuleExecutionError
                ("Error evaluating rule " ++ dquote ++ "error-rule" ++ dquote
                 ++ ": Condition error")), e)
    /\ map name (evaluate_calls testPackageData e) = ["error-rule"].
Proof.
  set (failing := mkRule "error-rule" always_throws "ERROR" 1%Z).
  exists (mkEngine [failing; standard_rule]). split; [reflexivity |].
  destruct (condition_throw_aborts testPackageData
              (mkEngine [failing; standard_rule]) failing
              (ThrownError "Condition error")) as (_ & Hfail & _).
  - left. reflexivity.
  - reflexivity.
  - split; [apply Hfail; reflexivity | reflexivity].
Defined.
